(** * DocForge: page-range parsing, range grouping, naming and compression fallback

    A shallow embedding of the pure logic of the DocForge split and compress
    tools:

    - [parsePageRanges] (the SplitFiles component) turns the text typed by the
      user into a list of page numbers;
    - the grouping pass of [createSplitDocuments] (utils/downloadUtils.ts)
      cuts the sorted page list into runs of consecutive pages, one output
      document per run, and names each document from the naming pattern;
    - [createProcessedDocument] (utils/downloadUtils.ts) tries up to four
      pdf-lib save configurations and falls back to the original bytes.

    The later parts add [createMergedDocument], the handlers of the split
    page and the download name of the compress page, and compare the parser
    with the token grammar of the specification.

    Conventions.  A JavaScript string is the list of its UTF-16 code units
    ([jsstring]).  A JavaScript number that holds an integer is a [Z]; the
    value NaN produced by [parseInt] is [None].  Page counts are far below
    2^53, and every comparison the code makes is against [totalPages], so the
    rounding that [parseInt] applies to digit strings longer than 2^53 cannot
    change the outcome of a test: the exact integer and its double are on the
    same side of [totalPages]. *)

From Stdlib Require Import String Ascii DecimalString.
From Stdlib Require DecimalPos.
From Stdlib Require Import ZArith NArith List Bool Lia PrimFloat.
From Stdlib Require Import Sorting.Sorted Sorting.Permutation.
From ExtLib Require Import Structures.Monad Structures.MonadExc.
From ExtLib Require Import Data.Monads.EitherMonad.
Import ListNotations.
Import MonadNotation.
Set Warnings "-inexact-float".
Local Open Scope Z_scope.
Local Open Scope monad_scope.

(** ** JavaScript strings *)

Module JS.

Definition jsstring := list N.

(** An ASCII literal as a JavaScript string. *)
Definition js (s : string) : jsstring :=
  map N_of_ascii (list_ascii_of_string s).
Arguments js s%_string.

Definition comma : N := 44.
Definition hyphen : N := 45.
Definition plus_sign : N := 43.
Definition dot : N := 46.
Definition lineFeed : N := 10.

(** WhiteSpace and LineTerminator code units of ECMAScript: the characters
    that [String.prototype.trim] strips and that [parseInt] skips. *)
Definition isWhiteSpace (c : N) : bool :=
  let c := Z.of_N c in
  (c =? 9) || (c =? 10) || (c =? 11) || (c =? 12) || (c =? 13) || (c =? 32)
  || (c =? 160) || (c =? 5760) || ((8192 <=? c) && (c <=? 8202))
  || (c =? 8232) || (c =? 8233) || (c =? 8239) || (c =? 8287)
  || (c =? 12288) || (c =? 65279).

Fixpoint trimStart (s : jsstring) : jsstring :=
  match s with
  | [] => []
  | c :: r => if isWhiteSpace c then trimStart r else s
  end.

Definition trimEnd (s : jsstring) : jsstring := rev (trimStart (rev s)).

(** [s.trim()] *)
Definition trim (s : jsstring) : jsstring := trimEnd (trimStart s).

(** [s.includes(c)] for a one-character search string. *)
Definition includes (c : N) (s : jsstring) : bool := existsb (N.eqb c) s.

(** [s.split(sep)] for a one-character separator: never empty, and
    [''.split(sep)] is [['']]. *)
Fixpoint split (sep : N) (s : jsstring) : list jsstring :=
  match s with
  | [] => [[]]
  | c :: r =>
      if N.eqb c sep then [] :: split sep r
      else match split sep r with
           | f :: fs => (c :: f) :: fs
           | [] => [[c]]
           end
  end.

(** Value of a code unit as a digit, for radices up to 36. *)
Definition digitValue (c : N) : option Z :=
  let c := Z.of_N c in
  if (48 <=? c) && (c <=? 57) then Some (c - 48)
  else if (97 <=? c) && (c <=? 122) then Some (c - 87)
  else if (65 <=? c) && (c <=? 90) then Some (c - 55)
  else None.

Definition radixDigit (R : Z) (c : N) : option Z :=
  match digitValue c with
  | Some d => if d <? R then Some d else None
  | None => None
  end.

(** The longest prefix of radix-[R] digits. *)
Fixpoint takeDigits (R : Z) (s : jsstring) : list Z :=
  match s with
  | [] => []
  | c :: r =>
      match radixDigit R c with
      | Some d => d :: takeDigits R r
      | None => []
      end
  end.

Definition digitsValue (R : Z) (ds : list Z) : Z :=
  fold_left (fun acc d => acc * R + d) ds 0.

(** [parseInt(s)] with no radix argument (ECMAScript 19.2.5): skip leading
    white space, read an optional sign, switch to radix 16 after a [0x] or
    [0X] prefix, read the longest run of digits and ignore what follows.
    [None] is NaN. *)
Definition parseInt (s : jsstring) : option Z :=
  let s1 := trimStart s in
  let '(sign, s2) :=
    match s1 with
    | c :: r =>
        if N.eqb c hyphen then (-1, r)
        else if N.eqb c plus_sign then (1, r)
        else (1, s1)
    | [] => (1, s1)
    end in
  let '(R, s3) :=
    match s2 with
    | 48%N :: x :: r =>
        if N.eqb x 120 || N.eqb x 88 then (16, r) else (10, s2)
    | _ => (10, s2)
    end in
  match takeDigits R s3 with
  | [] => None
  | ds => Some (sign * digitsValue R ds)
  end.

(** [new Set(xs)] spread back into an array: the first occurrence of every
    value, in insertion order. *)
Definition setAdd (seen : list Z) (x : Z) : list Z :=
  if existsb (Z.eqb x) seen then seen else seen ++ [x].

Definition setOf (xs : list Z) : list Z := fold_left setAdd xs [].

(** [xs.sort((a, b) => a - b)]: a stable ascending sort. *)
Fixpoint insertAsc (x : Z) (l : list Z) : list Z :=
  match l with
  | [] => [x]
  | y :: r => if x <=? y then x :: l else y :: insertAsc x r
  end.

Definition sortAsc (xs : list Z) : list Z := fold_right insertAsc [] xs.

Fixpoint startsWith (prefix s : jsstring) : bool :=
  match prefix, s with
  | [], _ => true
  | _ :: _, [] => false
  | a :: p, b :: r => N.eqb a b && startsWith p r
  end.

(** [s.replace(search, replacement)] with a string pattern: only the first
    occurrence is replaced.  The replacement strings used here are made of
    digits and hyphens, so no [$] pattern is ever expanded. *)
Fixpoint replace (search replacement s : jsstring) : jsstring :=
  if startsWith search s then replacement ++ skipn (length search) s
  else match s with
       | [] => []
       | c :: r => c :: replace search replacement r
       end.

(** [n.toString()] for an integer below 10^21: its decimal digits. *)
Definition toString (n : Z) : jsstring :=
  js (NilZero.string_of_int (Z.to_int n)).

(** [xs.join(sep)] *)
Fixpoint join (sep : jsstring) (xs : list jsstring) : jsstring :=
  match xs with
  | [] => []
  | [x] => x
  | x :: r => x ++ sep ++ join sep r
  end.

(** [xs.slice(a, b)] for non-negative integer bounds. *)
Definition slice {A} (xs : list A) (a b : nat) : list A :=
  firstn (b - a) (skipn a xs).

(** [Math.ceil(a / b)] for non-negative integers and [b > 0]. *)
Definition ceilDiv (a b : nat) : nat := ((a + b - 1) / b)%nat.

(** [xs.map((x, index) => f(x, index))] *)
Fixpoint mapFrom {A B : Type} (f : A -> nat -> B) (index : nat) (xs : list A)
    : list B :=
  match xs with
  | [] => []
  | x :: r => f x index :: mapFrom f (S index) r
  end.

Definition mapi {A B : Type} (f : A -> nat -> B) (xs : list A) : list B :=
  mapFrom f 0 xs.

(** [a === b] on strings. *)
Fixpoint strictEq (a b : jsstring) : bool :=
  match a, b with
  | [], [] => true
  | x :: a', y :: b' => N.eqb x y && strictEq a' b'
  | _, _ => false
  end.

(** [s || fallback]: the empty string is the only falsy string. *)
Definition orElse (s fallback : jsstring) : jsstring :=
  match s with
  | [] => fallback
  | _ => s
  end.

(** [Math.max(a, b)] on two numbers that are not NaN. *)
Definition mathMax (a b : float) : float :=
  if PrimFloat.ltb a b then b else a.

(** [xs.pop()] on a fresh array: its last element. *)
Definition pop (xs : list jsstring) : jsstring := last xs [].

End JS.

Import JS.

(** ** The page-range parser (SplitFiles component) *)

(** The pages pushed by [for (let i = start; i <= end; i++) pages.push(i)]:
    the body runs [end - start + 1] times when [start <= end], and not at
    all otherwise. *)
Fixpoint pagesFrom (n : nat) (i : Z) : list Z :=
  match n with
  | O => []
  | S k => i :: pagesFrom k (i + 1)
  end.

Definition span (first last : Z) : list Z :=
  pagesFrom (Z.to_nat (last - first + 1)) first.

(** The body of the [for (const range of ranges)] loop: the pages one token
    pushes.  A missing second field would destructure to [undefined], which
    [isNaN] rejects. *)
Definition tokenPages (totalPages : Z) (range : jsstring) : list Z :=
  if includes hyphen range then
    match map (fun n => parseInt (trim n)) (split hyphen range) with
    | Some start :: Some end_ :: _ =>
        if (0 <? start) && (end_ <=? totalPages) && (start <=? end_)
        then span start end_
        else []
    | _ => []
    end
  else
    match parseInt range with
    | Some page =>
        if (0 <? page) && (page <=? totalPages) then [page] else []
    | None => []
    end.

Definition tokens (rangeStr : jsstring) : list jsstring :=
  map trim (split comma rangeStr).

Definition parsePageRanges (totalPages : Z) (rangeStr : jsstring) : list Z :=
  let ranges := tokens rangeStr in
  let pages :=
    fold_left (fun pages range => pages ++ tokenPages totalPages range)
              ranges [] in
  sortAsc (setOf pages).

(** ** Grouping consecutive pages (createSplitDocuments) *)

(** The two arrays the [forEach] callback updates. *)
Record GroupState := mkGroupState {
  ranges : list (list Z);
  currentRange : list Z
}.

(** [if (currentRange.length > 0) ranges.push([...currentRange])] *)
Definition pushCurrent (st : GroupState) : list (list Z) :=
  if (0 <? length (currentRange st))%nat
  then ranges st ++ [currentRange st]
  else ranges st.

(** The callback of [sortedPages.forEach((page, index) => ...)]. *)
Definition groupStep (totalPages : Z) (sortedPages : list Z)
    (st : GroupState) (page : Z) (index : nat) : GroupState :=
  let pageIndex := page - 1 in
  if (pageIndex <? 0) || (pageIndex >=? totalPages) then st
  else if (index =? 0)%nat
          || negb (page =? nth (index - 1) sortedPages 0 + 1)
  then mkGroupState (pushCurrent st) [page]
  else mkGroupState (ranges st) (currentRange st ++ [page]).

(** [xs.forEach(f)], the callback receiving the element and its index. *)
Fixpoint forEachFrom {St : Type} (f : St -> Z -> nat -> St)
    (index : nat) (xs : list Z) (st : St) : St :=
  match xs with
  | [] => st
  | x :: r => forEachFrom f (S index) r (f st x index)
  end.

(** Lines 432-464: sort, group, push the last range. *)
Definition groupPages (totalPages : Z) (pageNumbers : list Z)
    : list (list Z) :=
  let sortedPages := sortAsc pageNumbers in
  let st :=
    forEachFrom (groupStep totalPages sortedPages) 0 sortedPages
                (mkGroupState [] []) in
  pushCurrent st.

(** A range is kept as the array of its pages; its bounds are [range[0]]
    and [range[range.length - 1]]. *)
Definition rangeStart (range : list Z) : Z := nth 0 range 0.
Definition rangeEnd (range : list Z) : Z := nth (length range - 1) range 0.

(** The grouping seen as a sequence of [(start, end)] pairs. *)
Definition compact (totalPages : Z) (selection : list Z) : list (Z * Z) :=
  map (fun range => (rangeStart range, rangeEnd range))
      (groupPages totalPages selection).

(** The pages covered by a sequence of [(start, end)] pairs. *)
Definition flatten (rs : list (Z * Z)) : list Z :=
  flat_map (fun r => span (fst r) (snd r)) rs.

(** ** Output naming (lines 481-488) *)

Definition placeholder : jsstring := js "{n}".

Definition rangeFileName (namingPattern : jsstring) (range : list Z)
    : jsstring :=
  if (length range =? 1)%nat
  then replace placeholder (toString (rangeStart range)) namingPattern
  else replace placeholder
         (toString (rangeStart range) ++ js "-" ++ toString (rangeEnd range))
         namingPattern.

(** ** Files, blobs and the PDF library *)

Definition bytes := list N.

Record File := mkFile {
  name : jsstring;
  type : jsstring;
  content : bytes          (* what [arrayBuffer()] resolves to *)
}.

(** The single part a blob is built from: a byte buffer or a string. *)
Inductive BlobPart :=
| PartBuffer (b : bytes)
| PartString (s : jsstring).

Record Blob := mkBlob {
  blobPart : BlobPart;
  blobType : jsstring
}.

Record SplitFile := mkSplitFile {
  splitName : jsstring;
  splitContent : Blob
}.

Record LoadOptions := mkLoadOptions {
  loadUpdateMetadata : bool;
  ignoreEncryption : bool;
  throwOnInvalidObject : bool
}.

Record SaveOptions := mkSaveOptions {
  useObjectStreams : bool;
  addDefaultPage : bool;
  compress : bool;
  updateMetadata : bool;
  objectsPerTick : Z;
  compressStreams : bool;
  compressImages : bool;
  imageCompression : jsstring;
  imageQuality : float;
  downsampleImages : option bool;
  maxImageSize : option Z
}.

Definition withObjectsPerTick (o : SaveOptions) (n : Z) : SaveOptions :=
  mkSaveOptions (useObjectStreams o) (addDefaultPage o) (compress o)
    (updateMetadata o) n (compressStreams o) (compressImages o)
    (imageCompression o) (imageQuality o) (downsampleImages o)
    (maxImageSize o).

Definition withImageQuality (o : SaveOptions) (q : float) : SaveOptions :=
  mkSaveOptions (useObjectStreams o) (addDefaultPage o) (compress o)
    (updateMetadata o) (objectsPerTick o) (compressStreams o)
    (compressImages o) (imageCompression o) q (downsampleImages o)
    (maxImageSize o).

(** [baseOptions] extended with the per-level fields. *)
Definition levelOptions (perTick : Z) (quality : float) : SaveOptions :=
  mkSaveOptions true false true false perTick true true (js "JPEG") quality
    None None.

Definition getCompressionOptions (level : jsstring) : SaveOptions :=
  if strictEq level (js "light") then levelOptions 50 0.8%float
  else if strictEq level (js "medium") then levelOptions 30 0.6%float
  else if strictEq level (js "high") then levelOptions 20 0.4%float
  else levelOptions 30 0.6%float.

Definition streamCompressionOptions (o : SaveOptions) : SaveOptions :=
  withImageQuality (withObjectsPerTick o 10)
    (mathMax 0.3%float (PrimFloat.sub (imageQuality o) 0.2%float)).

Definition maxCompressionOptions (o : SaveOptions) : SaveOptions :=
  mkSaveOptions (useObjectStreams o) (addDefaultPage o) (compress o)
    (updateMetadata o) 5 true true (js "JPEG") 0.2%float
    (downsampleImages o) (maxImageSize o).

Definition finalOptions (o : SaveOptions) : SaveOptions :=
  mkSaveOptions (useObjectStreams o) (addDefaultPage o) (compress o)
    (updateMetadata o) 1 true true (js "JPEG") 0.1%float
    (Some true) (Some 800).

(** [!compressionLevel]: the argument is missing or the empty string. *)
Definition noLevel (compressionLevel : option jsstring) : bool :=
  match compressionLevel with
  | None => true
  | Some [] => true
  | Some _ => false
  end.

(** [name.split('.').pop()?.toLowerCase()], before any fallback. *)
Definition extensionOf (lower : jsstring -> jsstring) (f : File)
    : jsstring :=
  lower (pop (split dot (name f))).

(** ** The operations built on pdf-lib and the browser

    pdf-lib and the browser are outside the repository: their calls are the
    fields of [Platform].  A call that can throw returns in [sum exn]; a
    document is passed along explicitly where the code mutates it
    ([copyPages] registers objects in the target, [addPage] appends).
    [getPageCount], [getPages], [save] and the source side of [copyPages]
    read a document and leave it as it is. *)

Class Platform := {
  exn : Type;
  PDFDocument : Type;
  PDFPage : Type;
  Canvas : Type;
  (** [error instanceof Error ? error.message : String(error)] *)
  errorText : exn -> jsstring;
  (** [new Error(message)] *)
  newError : jsstring -> exn;
  (** [String.prototype.toLowerCase] *)
  toLowerCase : jsstring -> jsstring;
  (** [File.prototype.text]: the content decoded as UTF-8. *)
  decodeText : bytes -> jsstring;
  load : bytes -> option LoadOptions -> exn + PDFDocument;
  create : exn + PDFDocument;
  getPageCount : PDFDocument -> Z;
  getPages : PDFDocument -> list PDFPage;
  (** [target.copyPages(source, indices)] *)
  copyPages :
    PDFDocument -> PDFDocument -> list Z -> exn + (PDFDocument * list PDFPage);
  (** [target.addPage(page)]; [None] is an [undefined] argument. *)
  addPage : PDFDocument -> option PDFPage -> exn + PDFDocument;
  save : PDFDocument -> option SaveOptions -> exn + bytes;
  (** Loading the bytes into an [Image] and drawing it on a canvas:
      [inl false] when [onerror] fires, [inl true] when no 2d context is
      available. *)
  drawImage : bytes -> jsstring -> bool + Canvas;
  (** [canvas.toBlob(callback, type, quality)]: the blob handed to the
      callback, or [None] for [null]. *)
  toBlob : Canvas -> jsstring -> float -> option Blob
}.

Section WithPlatform.

Context {platform : Platform}.

Local Abbreviation result := (sum exn).

(** [for (const x of xs)] over a body that may throw. *)
Fixpoint foldM {A B : Type} (f : B -> A -> result B) (xs : list A) (b : B)
    : result B :=
  match xs with
  | [] => ret b
  | x :: r => b' <- f b x ;; foldM f r b'
  end.

(** [Promise.all(xs.map(async x => ...))]: the results in the order of
    [xs], or a rejection as soon as one body throws (here the first one in
    list order). *)
Fixpoint promiseAllMap {A B : Type} (f : A -> result B) (xs : list A)
    : result (list B) :=
  match xs with
  | [] => ret []
  | x :: r => y <- f x ;; ys <- promiseAllMap f r ;; ret (y :: ys)
  end.

(** *** createSplitDocuments *)

(** The text branch (lines 402-420). *)
Definition splitText (originalFile : File) (originalExtension : jsstring)
    (pageNumbers : list Z) (namingPattern : jsstring) : list SplitFile :=
  let text := decodeText (content originalFile) in
  let lines := split lineFeed text in
  let linesPerPage := ceilDiv (length lines) (length pageNumbers) in
  mapi (fun pageNum index =>
          let startLine := (index * linesPerPage)%nat in
          let endLine := Nat.min (startLine + linesPerPage) (length lines) in
          let pageContent := join [lineFeed] (slice lines startLine endLine) in
          let fileName := replace placeholder (toString pageNum) namingPattern in
          let fullFileName := fileName ++ js "." ++ originalExtension in
          mkSplitFile fullFileName
            (mkBlob (PartString pageContent) (type originalFile)))
       pageNumbers.

(** The body of [ranges.map(async (range) => ...)] (lines 467-494). *)
Definition splitRange (pdfDoc : PDFDocument) (namingPattern : jsstring)
    (range : list Z) : result SplitFile :=
  newPdf <- create ;;
  let pageIndices := map (fun p => p - 1) range in
  copied <- copyPages newPdf pdfDoc pageIndices ;;
  newPdf <- foldM (fun doc page => addPage doc (Some page))
                  (snd copied) (fst copied) ;;
  newPdfBytes <- save newPdf None ;;
  let fileName := rangeFileName namingPattern range in
  let fullFileName := fileName ++ js ".pdf" in
  ret (mkSplitFile fullFileName
         (mkBlob (PartBuffer newPdfBytes) (js "application/pdf"))).

(** The PDF branch (lines 423-501). *)
Definition splitPdf (originalContent : bytes) (pageNumbers : list Z)
    (namingPattern : jsstring) : result (list SplitFile) :=
  catch
    (pdfDoc <- load originalContent None ;;
     let totalPages := getPageCount pdfDoc in
     let ranges := groupPages totalPages pageNumbers in
     promiseAllMap (splitRange pdfDoc namingPattern) ranges)
    (fun error =>
       raise (newError (js "Failed to split PDF file: " ++ errorText error))).

(** The branch for other binary files (lines 503-523). *)
Definition splitBinary (originalFile : File) (originalExtension : jsstring)
    (pageNumbers : list Z) (namingPattern : jsstring) : list SplitFile :=
  let originalContent := content originalFile in
  let byteLength := length originalContent in
  let chunkSize := ceilDiv byteLength (length pageNumbers) in
  mapi (fun pageNum index =>
          let startOffset := (index * chunkSize)%nat in
          let endOffset := Nat.min (startOffset + chunkSize) byteLength in
          let actualEndOffset :=
            if (startOffset <? endOffset)%nat then endOffset else byteLength in
          let chunkContent := slice originalContent startOffset actualEndOffset in
          let fileName := replace placeholder (toString pageNum) namingPattern in
          let fullFileName := fileName ++ js "." ++ originalExtension in
          mkSplitFile fullFileName
            (mkBlob (PartBuffer chunkContent) (type originalFile)))
       pageNumbers.

Definition createSplitDocuments (originalFile : File) (pageNumbers : list Z)
    (namingPattern : jsstring) : result (list SplitFile) :=
  let originalExtension :=
    orElse (extensionOf toLowerCase originalFile) (js "pdf") in
  let originalContent := content originalFile in
  if startsWith (js "text/") (type originalFile)
     || strictEq originalExtension (js "txt")
  then ret (splitText originalFile originalExtension pageNumbers namingPattern)
  else if strictEq originalExtension (js "pdf")
  then splitPdf originalContent pageNumbers namingPattern
  else ret (splitBinary originalFile originalExtension pageNumbers namingPattern).

(** *** createProcessedDocument *)

(** A fresh document holding a copy of every page of [pdfDoc]
    (the loops at lines 110-117, 134-141 and 161-168). *)
Definition copyAllPages (pdfDoc : PDFDocument) : result PDFDocument :=
  newPdf <- create ;;
  let pages := getPages pdfDoc in
  foldM (fun doc i =>
           copied <- copyPages doc pdfDoc [Z.of_nat i] ;;
           addPage (fst copied) (hd_error (snd copied)))
        (seq 0 (length pages)) newPdf.

(** [if (compressedPdfBytes.length >= arrayBuffer.byteLength) { retry }] *)
Definition retryIfNotSmaller (byteLength : nat) (compressedPdfBytes : bytes)
    (retry : result bytes) : result bytes :=
  if (byteLength <=? length compressedPdfBytes)%nat
  then retry
  else ret compressedPdfBytes.

(** The four save attempts, each on the document it is made on. *)
Definition firstAttempt (pdfDoc : PDFDocument) (o : SaveOptions)
    : result bytes :=
  save pdfDoc (Some o).

Definition secondAttempt (pdfDoc : PDFDocument) (o : SaveOptions)
    : result bytes :=
  newPdf <- copyAllPages pdfDoc ;;
  save newPdf (Some (streamCompressionOptions o)).

Definition thirdAttempt (pdfDoc : PDFDocument) (o : SaveOptions)
    : result bytes :=
  maxPdf <- copyAllPages pdfDoc ;;
  save maxPdf (Some (maxCompressionOptions o)).

Definition fourthAttempt (pdfDoc : PDFDocument) (o : SaveOptions)
    : result bytes :=
  finalPdf <- copyAllPages pdfDoc ;;
  save finalPdf (Some (finalOptions o)).

(** The body of the [try] block (lines 43-203). *)
Definition compressPdf (arrayBuffer : bytes) (fileType : jsstring)
    (compressionLevel : jsstring) : result Blob :=
  pdfDoc <- load arrayBuffer (Some (mkLoadOptions false true false)) ;;
  let compressOptions :=
    getCompressionOptions (orElse compressionLevel (js "medium")) in
  let byteLength := length arrayBuffer in
  compressedPdfBytes <- firstAttempt pdfDoc compressOptions ;;
  compressedPdfBytes <-
    retryIfNotSmaller byteLength compressedPdfBytes
      (secondAttempt pdfDoc compressOptions) ;;
  compressedPdfBytes <-
    retryIfNotSmaller byteLength compressedPdfBytes
      (thirdAttempt pdfDoc compressOptions) ;;
  compressedPdfBytes <-
    retryIfNotSmaller byteLength compressedPdfBytes
      (fourthAttempt pdfDoc compressOptions) ;;
  if (byteLength <=? length compressedPdfBytes)%nat
  then ret (mkBlob (PartBuffer arrayBuffer) fileType)
  else ret (mkBlob (PartBuffer compressedPdfBytes) (js "application/pdf")).

Definition getQualityFromLevel (level : jsstring) : float :=
  if strictEq level (js "light") then 0.7%float
  else if strictEq level (js "medium") then 0.5%float
  else if strictEq level (js "high") then 0.3%float
  else if strictEq level (js "custom") then 0.5%float
  else 0.5%float.

(** The image branch (lines 212-266). *)
Definition compressImage (arrayBuffer : bytes) (fileType : jsstring)
    (compressionLevel : jsstring) : Blob :=
  let original := mkBlob (PartBuffer arrayBuffer) fileType in
  match drawImage arrayBuffer fileType with
  | inl _ => original
  | inr canvas =>
      let quality :=
        getQualityFromLevel (orElse compressionLevel (js "medium")) in
      match toBlob canvas fileType quality with
      | Some blob => blob
      | None => original
      end
  end.

Definition createProcessedDocument (originalFile : File)
    (newFilename : jsstring) (compressionLevel : option jsstring) : Blob :=
  let arrayBuffer := content originalFile in
  let fileType := type originalFile in
  let fileExtension := extensionOf toLowerCase originalFile in
  let original := mkBlob (PartBuffer arrayBuffer) fileType in
  if noLevel compressionLevel then original
  else
    let level := match compressionLevel with Some l => l | None => [] end in
    if strictEq fileExtension (js "pdf") then
      match compressPdf arrayBuffer fileType level with
      | inr blob => blob
      | inl error => original
      end
    else if existsb (strictEq fileExtension) [js "jpg"; js "jpeg"; js "png"]
    then compressImage arrayBuffer fileType level
    else original.

End WithPlatform.

(** ** Predicates for the statements *)

(** The accept rules for one trimmed token as the code applies them, with
    [parseInt] reading the numbers: a token without hyphen is a single page;
    otherwise its endpoints are the first two hyphen-separated fields.  The
    rules over the grammar of the specification are [specTokenPages]. *)
Inductive Accepted (totalPages : Z) (token : jsstring) (p : Z) : Prop :=
| AcceptSingle :
    includes hyphen token = false ->
    parseInt token = Some p ->
    1 <= p <= totalPages ->
    Accepted totalPages token p
| AcceptRange (a b : jsstring) (rest : list jsstring) (start end_ : Z) :
    includes hyphen token = true ->
    split hyphen token = a :: b :: rest ->
    parseInt (trim a) = Some start ->
    parseInt (trim b) = Some end_ ->
    start > 0 -> end_ <= totalPages -> start <= end_ ->
    start <= p <= end_ ->
    Accepted totalPages token p.

Definition strictlyAscending (l : list Z) : Prop := StronglySorted Z.lt l.

(** The page test of the grouping pass: [1 <= page <= totalPages]. *)
Definition inRange (totalPages page : Z) : bool :=
  negb ((page - 1 <? 0) || (page - 1 >=? totalPages)).

(** The Compactor of the specification, as a recursion on the selection:
    a page opens a run, and joins the run that follows it when that run
    starts at the next integer. *)
Definition glue (cur : list Z) (rr : list (list Z)) : list (list Z) :=
  match rr with
  | (y :: run) :: rest =>
      if y =? rangeEnd cur + 1 then (cur ++ y :: run) :: rest else cur :: rr
  | _ => cur :: rr
  end.

Fixpoint runs (xs : list Z) : list (list Z) :=
  match xs with
  | [] => []
  | x :: r => glue [x] (runs r)
  end.

Definition bounds (range : list Z) : Z * Z := (rangeStart range, rangeEnd range).

(** Adjacent ranges are not mergeable: the next one does not start right
    after the end of the previous one. *)
Fixpoint separated (rs : list (Z * Z)) : Prop :=
  match rs with
  | r1 :: ((r2 :: _) as rest) => snd r1 + 1 <> fst r2 /\ separated rest
  | _ => True
  end.

(** A sequence of well-formed ranges whose spans, in order, give back the
    selection. *)
Definition covers (rs : list (Z * Z)) (selection : list Z) : Prop :=
  Forall (fun r => fst r <= snd r) rs /\ flatten rs = selection.

(** Ranges in ascending order: each one ends before the next one starts. *)
Fixpoint ascendingRanges (rs : list (Z * Z)) : Prop :=
  match rs with
  | r1 :: ((r2 :: _) as rest) => snd r1 < fst r2 /\ ascendingRanges rest
  | _ => True
  end.

(** [name(range, pattern)] of the specification, on the array the code
    keeps for the range. *)
Definition rangeName (r : Z * Z) (namingPattern : jsstring) : jsstring :=
  rangeFileName namingPattern (span (fst r) (snd r)).

(** What the specification puts in place of the placeholder. *)
Definition substituted (start end_ : Z) : jsstring :=
  if start =? end_ then toString start
  else toString start ++ js "-" ++ toString end_.

Fixpoint containsString (search s : jsstring) : bool :=
  startsWith search s
  || match s with
     | [] => false
     | _ :: r => containsString search r
     end.

(** A PDF input of [createSplitDocuments]: not a text file, and the
    extension (or the fallback for a missing one) is [pdf]. *)
Definition takesPdfBranch `{Platform} (f : File) : Prop :=
  startsWith (js "text/") (type f) = false /\
  orElse (extensionOf toLowerCase f) (js "pdf") = js "pdf".

(** A small stand-in for pdf-lib and the browser, to run the operations on
    concrete files: a document is the list of its page labels, saving writes
    one byte per page, and no image can be decoded. *)
Definition toyPlatform : Platform := {|
  exn := unit;
  PDFDocument := list Z;
  PDFPage := Z;
  Canvas := unit;
  errorText := fun _ => js "error";
  newError := fun _ => tt;
  toLowerCase := fun s => s;
  decodeText := fun b => b;
  load := fun b _ => inr (pagesFrom (length b) 1);
  create := inr [];
  getPageCount := fun d => Z.of_nat (length d);
  getPages := fun d => d;
  copyPages := fun target source indices =>
    inr (target, map (fun i => nth (Z.to_nat i) source 0) indices);
  addPage := fun d p => inr (d ++ [match p with Some x => x | None => 0 end]);
  save := fun d _ => inr (map Z.to_N d);
  drawImage := fun _ _ => inl false;
  toBlob := fun _ _ _ => None
|}.

(** A five-byte file named as a PDF, for that platform. *)
Definition sampleFile : File :=
  mkFile (js "report.pdf") (js "application/pdf") [37; 80; 68; 70; 45]%N.

(** The invariant of the data model: every page of a range belongs to
    exactly one range. *)
Definition rangesContaining (p : Z) (rr : list (list Z)) : list (list Z) :=
  filter (fun range => existsb (Z.eqb p) range) rr.

Definition exactlyOneRange (rr : list (list Z)) : Prop :=
  forall p, In p (concat rr) -> length (rangesContaining p rr) = 1%nat.

(** A run of consecutive pages. *)
Definition isRun (range : list Z) : Prop :=
  exists n i, range = pagesFrom (S n) i.

(** The callback of the grouping pass with the previous array element
    passed along instead of looked up by index. *)
Definition stepAfter (totalPages : Z) (prev : option Z) (st : GroupState)
    (page : Z) : GroupState :=
  if inRange totalPages page then
    if match prev with
       | None => true
       | Some q => negb (page =? q + 1)
       end
    then mkGroupState (pushCurrent st) [page]
    else mkGroupState (ranges st) (currentRange st ++ [page])
  else st.

Fixpoint groupAfter (totalPages : Z) (prev : option Z) (xs : list Z)
    (st : GroupState) : GroupState :=
  match xs with
  | [] => st
  | page :: r =>
      groupAfter totalPages (Some page) r (stepAfter totalPages prev st page)
  end.

Definition previousPage (before : list Z) : option Z :=
  match rev before with
  | q :: _ => Some q
  | [] => None
  end.

(** ** Further operations of the code *)

(** *** Buffers and text of createMergedDocument *)

(** [view.set(source, offset)] on a typed array, for a source that fits
    (the only use the code makes of it). *)
Definition setAt (target source : bytes) (offset : nat) : bytes :=
  firstn offset target ++ source ++ skipn (offset + length source) target.

(** The copy loops of lines 343-363 and 369-384: a zero-filled buffer of
    the total size, each content written at the running offset. *)
Definition mergeBuffers (buffers : list bytes) : bytes :=
  let totalSize :=
    fold_left (fun sum buffer => (sum + length buffer)%nat) buffers 0%nat in
  let mergedView := repeat 0%N totalSize in
  fst (fold_left
         (fun state buffer =>
            (setAt (fst state) buffer (snd state),
             (snd state + length buffer)%nat))
         buffers (mergedView, 0%nat)).

(** [xs.forEach((x, index) => ...)] and the indexed [for] loops, for any
    element type. *)
Fixpoint foldIndexed {A St : Type} (f : St -> A -> nat -> St)
    (index : nat) (xs : list A) (st : St) : St :=
  match xs with
  | [] => st
  | x :: r => foldIndexed f (S index) r (f st x index)
  end.

(** The header line written before a document (lines 327 and 332). *)
Definition documentHeader (i : nat) (file : File) (note : jsstring)
    : jsstring :=
  [lineFeed] ++ js "=== Document " ++ toString (Z.of_nat i + 1) ++ js ": "
  ++ name file ++ note ++ js " ===" ++ [lineFeed; lineFeed].

(** The calls createMergedDocument makes besides those of [Platform]. *)
Class MergePlatform `{Platform} := {
  (** [pdfDoc.getPageIndices()] *)
  getPageIndices : PDFDocument -> list Z;
  (** [file.text()] awaited inside a [try]: it may reject. *)
  fileText : File -> exn + jsstring
}.

Section WithMergePlatform.

Context `{MergePlatform}.

(** The body of the text loop (lines 323-334). *)
Definition mergeTextStep (mergedText : jsstring) (file : File) (i : nat)
    : jsstring :=
  match fileText file with
  | inr text =>
      mergedText ++ documentHeader i file [] ++ text ++ [lineFeed; lineFeed]
  | inl _ =>
      mergedText ++ documentHeader i file (js " (Error reading content)")
  end.

Definition mergeText (files : list File) : jsstring :=
  foldIndexed mergeTextStep 0 files [].

(** The PDF branch (lines 284-316). *)
Definition mergePdf (files : list File) : exn + Blob :=
  catch
    (mergedPdf <- create ;;
     mergedPdf <-
       foldM (fun mergedPdf file =>
                pdfDoc <- load (content file) None ;;
                copied <- copyPages mergedPdf pdfDoc (getPageIndices pdfDoc) ;;
                foldM (fun doc page => addPage doc (Some page))
                      (snd copied) (fst copied))
             files mergedPdf ;;
     mergedPdfBytes <- save mergedPdf None ;;
     ret (mkBlob (PartBuffer mergedPdfBytes) (js "application/pdf")))
    (fun error =>
       raise (newError (js "Failed to merge PDF files: " ++ errorText error))).

(** The function on files whose bytes have been read: [content file] is
    what [file.arrayBuffer()] resolved to.  [WithReads.createMergedDocument]
    below has the reads as calls that may reject. *)
Definition createMergedDocument (files : list File) (outputFilename : jsstring)
    : exn + Blob :=
  match files with
  | [] => raise (newError (js "No files to merge"))
  | firstFile :: _ =>
      let fileExtension := extensionOf toLowerCase firstFile in
      if strictEq fileExtension (js "pdf") then mergePdf files
      else if startsWith (js "text/") (type firstFile)
              || strictEq fileExtension (js "txt")
              || strictEq fileExtension (js "csv")
      then ret (mkBlob (PartString (mergeText files))
                       (orElse (type firstFile) (js "text/plain")))
      else if strictEq fileExtension (js "docx")
              || strictEq fileExtension (js "pptx")
              || strictEq fileExtension (js "doc")
              || strictEq fileExtension (js "ppt")
      then ret (mkBlob (PartBuffer (mergeBuffers (map content files)))
                       (type firstFile))
      else ret (mkBlob (PartBuffer (mergeBuffers (map content files)))
                       (type firstFile))
  end.

End WithMergePlatform.

(** *** The split page: handleFileSelect and handleSplit *)

(** What a handler leaves behind: the toast it shows and the state it
    sets. *)
Inductive SelectOutcome :=
| NothingSelected
| InvalidFileType
| FileTooLarge
| ErrorLoadingPdf
| FileSelected (uploadedFile : File) (totalPages : Z).

Inductive SplitOutcome :=
| NothingToSplit
| InvalidPageRange
| SplitComplete (splitFiles : list SplitFile)
| SplitFailed.

Definition acceptedTypes : list jsstring := [js ".pdf"].
Definition maxFileSize : Z := 50 * 1024 * 1024.

(** [file.size] *)
Definition size (f : File) : Z := Z.of_nat (length (content f)).

Section SplitPage.

Context {platform : Platform}.

Definition handleFileSelect (files : list File) : SelectOutcome :=
  match files with
  | [] => NothingSelected
  | file :: _ =>
      let extension := js "." ++ extensionOf toLowerCase file in
      if negb (existsb (strictEq extension) acceptedTypes)
      then InvalidFileType
      else if maxFileSize <? size file then FileTooLarge
      else match load (content file) None with
           | inr pdfDoc => FileSelected file (getPageCount pdfDoc)
           | inl _ => ErrorLoadingPdf
           end
  end.

(** The naming pattern handleSplit passes on: the file name without its
    first [.pdf], then [_part{n}]. *)
Definition splitPattern (uploadedFile : File) : jsstring :=
  let baseName := replace (js ".pdf") [] (name uploadedFile) in
  baseName ++ js "_part{n}".

Definition handleSplit (uploadedFile : option File) (splitRange : jsstring)
    (totalPages : Z) : SplitOutcome :=
  match uploadedFile with
  | None => NothingToSplit
  | Some file =>
      let pageNumbers := parsePageRanges totalPages splitRange in
      if (length pageNumbers =? 0)%nat then InvalidPageRange
      else match createSplitDocuments file pageNumbers (splitPattern file) with
           | inr splitResults => SplitComplete splitResults
           | inl _ => SplitFailed
           end
  end.

End SplitPage.

(** *** The compress page: the name of a download *)

Definition slash : N := 47.

(** [name.replace(/\.[^/.]+$/, "")]: the leftmost dot that is followed, up
    to the end of the name, by one or more characters other than [/] and
    [.], is cut off together with what follows it. *)
Fixpoint stripExtension (s : jsstring) : jsstring :=
  match s with
  | [] => []
  | c :: r =>
      if N.eqb c dot
         && negb (length r =? 0)%nat
         && forallb (fun x => negb (N.eqb x slash || N.eqb x dot)) r
      then []
      else c :: stripExtension r
  end.

(** The file name computed by downloadCompressed (CompressFiles.tsx). *)
Definition compressedFileName (fileName : jsstring) : jsstring :=
  stripExtension fileName ++ js "_compressed." ++ pop (split dot fileName).

(** *** Stand-ins and helpers for the statements *)

Definition toyMergePlatform : @MergePlatform toyPlatform :=
  @Build_MergePlatform toyPlatform
    (fun d : list Z => map Z.of_nat (seq 0 (length d)))
    (fun f => inr (content f)).

(** The same stand-in, except that an empty file is not a PDF document:
    loading it throws. *)
Definition strictPlatform : Platform := {|
  exn := unit;
  PDFDocument := list Z;
  PDFPage := Z;
  Canvas := unit;
  errorText := fun _ => js "error";
  newError := fun _ => tt;
  toLowerCase := fun s => s;
  decodeText := fun b => b;
  load := fun b _ =>
    match b with
    | [] => inl tt
    | _ => inr (pagesFrom (length b) 1)
    end;
  create := inr [];
  getPageCount := fun d => Z.of_nat (length d);
  getPages := fun d => d;
  copyPages := fun target source indices =>
    inr (target, map (fun i => nth (Z.to_nat i) source 0) indices);
  addPage := fun d p => inr (d ++ [match p with Some x => x | None => 0 end]);
  save := fun d _ => inr (map Z.to_N d);
  drawImage := fun _ _ => inl false;
  toBlob := fun _ _ _ => None
|}.

Definition strictMergePlatform : @MergePlatform strictPlatform :=
  @Build_MergePlatform strictPlatform
    (fun d : list Z => map Z.of_nat (seq 0 (length d)))
    (fun f => inr (content f)).

Definition emptyPdf : File :=
  mkFile (js "empty.pdf") (js "application/pdf") [].

(** A file of another binary format, for the toy platform. *)
Definition sampleBinary : File :=
  mkFile (js "slides.pptx") (js "application/vnd.ms-powerpoint")
         [80; 75; 3; 4; 20; 0; 6]%N.

Definition sampleText : File :=
  mkFile (js "notes.txt") (js "text/plain") [97; 10; 98; 10; 99]%N.

(** The digits of a decimal numeral, most significant first. *)
Fixpoint uintDigits (d : Decimal.uint) : list Z :=
  match d with
  | Decimal.Nil => []
  | Decimal.D0 d => 0 :: uintDigits d
  | Decimal.D1 d => 1 :: uintDigits d
  | Decimal.D2 d => 2 :: uintDigits d
  | Decimal.D3 d => 3 :: uintDigits d
  | Decimal.D4 d => 4 :: uintDigits d
  | Decimal.D5 d => 5 :: uintDigits d
  | Decimal.D6 d => 6 :: uintDigits d
  | Decimal.D7 d => 7 :: uintDigits d
  | Decimal.D8 d => 8 :: uintDigits d
  | Decimal.D9 d => 9 :: uintDigits d
  end.

(** The code unit of a decimal digit. *)
Definition digitChar (x : Z) : N := Z.to_N (48 + x).

(** The file a blob becomes once saved under a name. *)
Definition savedAs (doc : SplitFile) (f : File) : Prop :=
  name f = splitName doc /\
  type f = blobType (splitContent doc) /\
  blobPart (splitContent doc) = PartBuffer (content f).

(** Same pages: each list holds the members of the other. *)
Definition samePages (l l' : list Z) : Prop :=
  forall p, In p l <-> In p l'.

(** ** The token grammar of the specification

    The specification gives the form of a token apart from the code: a
    single integer literal, or two integer literals separated by a hyphen.
    The definitions below follow that wording and do not go through
    [parseInt], [split] or [includes]. *)

Definition isDecimalDigit (c : N) : bool := ((48 <=? c) && (c <=? 57))%N.

(** The value of an integer literal: one or more decimal digits, and
    nothing else. *)
Definition integerLiteral (s : jsstring) : option Z :=
  match s with
  | [] => None
  | _ =>
      if forallb isDecimalDigit s
      then Some (fold_left (fun acc c => acc * 10 + (Z.of_N c - 48)) s 0)
      else None
  end.

(** The text before and after the first [sep], if there is one. *)
Fixpoint cutAt (sep : N) (s : jsstring) : option (jsstring * jsstring) :=
  match s with
  | [] => None
  | c :: r =>
      if N.eqb c sep then Some ([], r)
      else match cutAt sep r with
           | Some (a, b) => Some (c :: a, b)
           | None => None
           end
  end.

(** A token of the grammar. *)
Definition inGrammar (token : jsstring) : bool :=
  match integerLiteral token with
  | Some _ => true
  | None =>
      match cutAt hyphen token with
      | Some (a, b) =>
          match integerLiteral a, integerLiteral b with
          | Some _, Some _ => true
          | _, _ => false
          end
      | None => false
      end
  end.

(** The accept and drop rules of the specification for one trimmed token:
    a single integer is accepted when [1 <= value <= totalPages]; a range
    when both endpoints are integers, [start > 0], [end <= totalPages] and
    [start <= end]; every other token is dropped. *)
Definition specTokenPages (totalPages : Z) (token : jsstring) : list Z :=
  match integerLiteral token with
  | Some value =>
      if (1 <=? value) && (value <=? totalPages) then [value] else []
  | None =>
      match cutAt hyphen token with
      | Some (a, b) =>
          match integerLiteral a, integerLiteral b with
          | Some start, Some end_ =>
              if (0 <? start) && (end_ <=? totalPages) && (start <=? end_)
              then span start end_
              else []
          | _, _ => []
          end
      | None => []
      end
  end.

(** The Parser of the specification: the accepted pages of the trimmed
    comma-delimited tokens, without duplicates, in ascending order. *)
Definition specParse (totalPages : Z) (rangeStr : jsstring) : list Z :=
  sortAsc (setOf (flat_map (specTokenPages totalPages) (tokens rangeStr))).

(** White space only. *)
Definition blank (s : jsstring) : Prop :=
  Forall (fun c => isWhiteSpace c = true) s.

Definition noSpaceAtStart (s : jsstring) : Prop :=
  match s with
  | [] => True
  | c :: _ => isWhiteSpace c = false
  end.

(** [token] is [field] without the white space around it. *)
Definition trimmedTo (field token : jsstring) : Prop :=
  exists lead trail,
    field = lead ++ token ++ trail /\
    blank lead /\ blank trail /\
    noSpaceAtStart token /\ noSpaceAtStart (rev token).

(** Text after a number that [parseInt] does not read on: it is empty, or
    its first character is neither a decimal digit nor the [x] of a
    hexadecimal prefix. *)
Definition startsOutsideNumber (junk : jsstring) : Prop :=
  match junk with
  | [] => True
  | c :: _ => isDecimalDigit c = false /\ c <> 120%N /\ c <> 88%N
  end.

(** ** The save attempts that are made *)

(** The save attempts in the order the code makes them.  An attempt is made
    only when every attempt before it returned at least as many bytes as the
    original, and a throw leaves the [try] block.  The attempts made all
    fail when each of them, up to the first one that throws, throws or is
    not smaller than the original. *)
Fixpoint attemptsMadeFail `{Platform} (original : bytes)
    (attempts : list (exn + bytes)) : Prop :=
  match attempts with
  | [] => True
  | inl _ :: _ => True
  | inr b :: later =>
      (length original <= length b)%nat /\ attemptsMadeFail original later
  end.

(** The stand-in of [toyPlatform] with another [save]: the configuration of
    the second attempt (10 objects per tick) throws, the one of the first
    attempt at level high (20 objects per tick) writes one byte per page,
    and every other configuration writes an empty file. *)
Definition failingSavePlatform : Platform := {|
  exn := unit;
  PDFDocument := list Z;
  PDFPage := Z;
  Canvas := unit;
  errorText := fun _ => js "error";
  newError := fun _ => tt;
  toLowerCase := fun s => s;
  decodeText := fun b => b;
  load := fun b _ => inr (pagesFrom (length b) 1);
  create := inr [];
  getPageCount := fun d => Z.of_nat (length d);
  getPages := fun d => d;
  copyPages := fun target source indices =>
    inr (target, map (fun i => nth (Z.to_nat i) source 0) indices);
  addPage := fun d p => inr (d ++ [match p with Some x => x | None => 0 end]);
  save := fun d o =>
    match o with
    | Some options =>
        if objectsPerTick options =? 10 then inl tt
        else if objectsPerTick options =? 20 then inr (map Z.to_N d)
        else inr []
    | None => inr (map Z.to_N d)
    end;
  drawImage := fun _ _ => inl false;
  toBlob := fun _ _ _ => None
|}.

(** ** createMergedDocument with reads that may reject

    [createMergedDocument] above takes [content] for the bytes that
    [file.arrayBuffer()] resolved to.  Here the read is a call that may
    reject, made where the source awaits it: inside the [try] on the PDF
    branch (line 292), outside any [try] on the two binary branches (lines
    347 and 371). *)

Class FileReads `{MergePlatform} := {
  (** [file.arrayBuffer()] *)
  arrayBuffer : File -> exn + bytes
}.

Module WithReads.

Section Reading.

Context `{FileReads}.

(** [for (const file of files) { buffers.push(await file.arrayBuffer()) }] *)
Definition readBuffers (files : list File) : exn + list bytes :=
  foldM (fun buffers file =>
           buffer <- arrayBuffer file ;;
           ret (buffers ++ [buffer]))
        files [].

(** The PDF branch (lines 284-316). *)
Definition mergePdf (files : list File) : exn + Blob :=
  catch
    (mergedPdf <- create ;;
     mergedPdf <-
       foldM (fun mergedPdf file =>
                buffer <- arrayBuffer file ;;
                pdfDoc <- load buffer None ;;
                copied <- copyPages mergedPdf pdfDoc (getPageIndices pdfDoc) ;;
                foldM (fun doc page => addPage doc (Some page))
                      (snd copied) (fst copied))
             files mergedPdf ;;
     mergedPdfBytes <- save mergedPdf None ;;
     ret (mkBlob (PartBuffer mergedPdfBytes) (js "application/pdf")))
    (fun error =>
       raise (newError (js "Failed to merge PDF files: " ++ errorText error))).

Definition createMergedDocument (files : list File) (outputFilename : jsstring)
    : exn + Blob :=
  match files with
  | [] => raise (newError (js "No files to merge"))
  | firstFile :: _ =>
      let fileExtension := extensionOf toLowerCase firstFile in
      if strictEq fileExtension (js "pdf") then mergePdf files
      else if startsWith (js "text/") (type firstFile)
              || strictEq fileExtension (js "txt")
              || strictEq fileExtension (js "csv")
      then ret (mkBlob (PartString (mergeText files))
                       (orElse (type firstFile) (js "text/plain")))
      else if strictEq fileExtension (js "docx")
              || strictEq fileExtension (js "pptx")
              || strictEq fileExtension (js "doc")
              || strictEq fileExtension (js "ppt")
      then fileContents <- readBuffers files ;;
           ret (mkBlob (PartBuffer (mergeBuffers fileContents))
                       (type firstFile))
      else allBuffers <- readBuffers files ;;
           ret (mkBlob (PartBuffer (mergeBuffers allBuffers))
                       (type firstFile))
  end.

End Reading.

End WithReads.

(** The first file of a binary merge: neither the PDF branch nor the text
    branch of createMergedDocument takes it. *)
Definition mergedAsBinary `{Platform} (firstFile : File) : Prop :=
  strictEq (extensionOf toLowerCase firstFile) (js "pdf") = false /\
  startsWith (js "text/") (type firstFile)
  || strictEq (extensionOf toLowerCase firstFile) (js "txt")
  || strictEq (extensionOf toLowerCase firstFile) (js "csv") = false.

(** Reads for the toy platform: an empty file cannot be read. *)
Definition toyFileReads : @FileReads toyPlatform toyMergePlatform :=
  @Build_FileReads toyPlatform toyMergePlatform
    (fun f => match content f with
              | [] => inl tt
              | _ => inr (content f)
              end).

(** ** What handleSplit does, step by step *)




(** * Proofs *)

(** ** Lists: sets, sorting, spans *)

Lemma fold_left_push {A} (f : A -> list Z) (l : list A) (acc : list Z) :
  fold_left (fun pages x => pages ++ f x) l acc = acc ++ flat_map f l.
Proof.
  revert acc. induction l as [|x l IH]; intros acc; simpl.
  - now rewrite app_nil_r.
  - rewrite IH. now rewrite app_assoc.
Qed.

Lemma existsb_Zeqb_In x l : existsb (Z.eqb x) l = true <-> In x l.
Proof.
  rewrite existsb_exists. split.
  - intros [y [Hy E]]. apply Z.eqb_eq in E. now subst.
  - intros H. exists x. split; [assumption | apply Z.eqb_refl].
Qed.

Lemma setAdd_In seen x y : In y (setAdd seen x) <-> In y seen \/ y = x.
Proof.
  unfold setAdd. destruct (existsb (Z.eqb x) seen) eqn:E.
  - apply existsb_Zeqb_In in E. split; [tauto | intros [H | ->]; assumption].
  - rewrite in_app_iff. simpl. intuition.
Qed.

Lemma setAdd_NoDup seen x : NoDup seen -> NoDup (setAdd seen x).
Proof.
  intros H. unfold setAdd. destruct (existsb (Z.eqb x) seen) eqn:E; [assumption|].
  assert (~ In x seen) as Hn.
  { intros Hin. apply existsb_Zeqb_In in Hin. congruence. }
  apply NoDup_rev in H. rewrite <- (rev_involutive (seen ++ [x])).
  apply NoDup_rev. rewrite rev_app_distr. simpl. constructor; [|assumption].
  now rewrite <- in_rev.
Qed.

Lemma fold_setAdd_In xs : forall seen y,
  In y (fold_left setAdd xs seen) <-> In y seen \/ In y xs.
Proof.
  induction xs as [|x xs IH]; intros seen y; simpl.
  - tauto.
  - rewrite IH, setAdd_In. intuition.
Qed.

Lemma fold_setAdd_NoDup xs : forall seen,
  NoDup seen -> NoDup (fold_left setAdd xs seen).
Proof.
  induction xs as [|x xs IH]; intros seen H; simpl; [assumption|].
  apply IH. now apply setAdd_NoDup.
Qed.

Lemma setOf_In xs y : In y (setOf xs) <-> In y xs.
Proof. unfold setOf. rewrite fold_setAdd_In. simpl. tauto. Qed.

Lemma setOf_NoDup xs : NoDup (setOf xs).
Proof. apply fold_setAdd_NoDup. constructor. Qed.

Lemma insertAsc_perm x l : Permutation (x :: l) (insertAsc x l).
Proof.
  induction l as [|y l IH]; simpl; [reflexivity|].
  destruct (x <=? y); [reflexivity|].
  rewrite perm_swap. now apply perm_skip.
Qed.

Lemma sortAsc_perm l : Permutation l (sortAsc l).
Proof.
  induction l as [|x l IH]; simpl; [constructor|].
  rewrite <- insertAsc_perm. now apply perm_skip.
Qed.

Lemma sortAsc_In l y : In y (sortAsc l) <-> In y l.
Proof.
  split; apply Permutation_in; [symmetry|]; apply sortAsc_perm.
Qed.

Lemma insertAsc_sorted x l :
  StronglySorted Z.le l -> StronglySorted Z.le (insertAsc x l).
Proof.
  induction 1 as [|y l Hs IH Hall]; simpl.
  - repeat constructor.
  - destruct (Z.leb_spec x y).
    + constructor; [now constructor|].
      constructor; [assumption|].
      eapply Forall_impl; [|exact Hall]. simpl. intros; lia.
    + constructor; [assumption|].
      rewrite Forall_forall. intros z Hz.
      apply (Permutation_in _ (Permutation_sym (insertAsc_perm x l))) in Hz.
      destruct Hz as [<- | Hz]; [lia|].
      rewrite Forall_forall in Hall. now apply Hall.
Qed.

Lemma sortAsc_sorted l : StronglySorted Z.le (sortAsc l).
Proof.
  induction l; simpl; [constructor | now apply insertAsc_sorted].
Qed.

Lemma sorted_NoDup_strict l :
  StronglySorted Z.le l -> NoDup l -> strictlyAscending l.
Proof.
  induction 1 as [|x l Hs IH Hall]; intros Hnd; [constructor|].
  inversion Hnd as [|? ? Hnotin Hnd']; subst.
  constructor; [now apply IH|].
  rewrite Forall_forall in *. intros y Hy.
  specialize (Hall y Hy).
  assert (x <> y) by (intros ->; contradiction). lia.
Qed.

Lemma strict_sorted_le l : strictlyAscending l -> StronglySorted Z.le l.
Proof.
  induction 1 as [|x l Hs IH Hall]; constructor; [assumption|].
  eapply Forall_impl; [|exact Hall]. simpl; intros; lia.
Qed.

Lemma strict_NoDup l : strictlyAscending l -> NoDup l.
Proof.
  induction 1 as [|x l Hs IH Hall]; constructor; [|assumption].
  intros Hin. rewrite Forall_forall in Hall. specialize (Hall x Hin). lia.
Qed.

(** Sorting leaves a sorted list alone. *)
Lemma insertAsc_head x l :
  Forall (fun y => x <= y) l -> insertAsc x l = x :: l.
Proof.
  destruct l as [|y l]; simpl; [reflexivity|].
  intros H. inversion H; subst.
  destruct (Z.leb_spec x y); [reflexivity | lia].
Qed.

Lemma sortAsc_sorted_id l : StronglySorted Z.le l -> sortAsc l = l.
Proof.
  induction 1 as [|x l Hs IH Hall]; simpl; [reflexivity|].
  rewrite IH. now apply insertAsc_head.
Qed.

Lemma pagesFrom_In n : forall i p,
  In p (pagesFrom n i) <-> i <= p < i + Z.of_nat n.
Proof.
  induction n as [|n IH]; intros i p.
  - simpl. lia.
  - cbn [pagesFrom In]. rewrite IH. lia.
Qed.

Lemma span_In first last p : In p (span first last) <-> first <= p <= last.
Proof. unfold span. rewrite pagesFrom_In. lia. Qed.

(** ** Strings: split, trim, includes *)

Lemma includes_In c s : includes c s = true <-> In c s.
Proof.
  unfold includes. rewrite existsb_exists. split.
  - intros [y [Hy E]]. apply N.eqb_eq in E. now subst.
  - intros H. exists c. split; [assumption | apply N.eqb_refl].
Qed.

Lemma includes_cons_false c x s :
  includes c (x :: s) = false -> x <> c /\ includes c s = false.
Proof.
  unfold includes. simpl. intros H. apply orb_false_iff in H as [H1 H2].
  split; [|assumption]. apply N.eqb_neq in H1. congruence.
Qed.

Lemma split_nonempty sep s : split sep s <> [].
Proof.
  destruct s as [|c r]; simpl; [discriminate|].
  destruct (N.eqb c sep); [discriminate|].
  destruct (split sep r); discriminate.
Qed.

(** A field holds characters of the string, none of them the separator. *)
Lemma split_chars sep s : forall f c,
  In f (split sep s) -> In c f -> In c s /\ c <> sep.
Proof.
  induction s as [|x r IH]; simpl; intros f c Hf Hc.
  - destruct Hf as [<- | []]. destruct Hc.
  - destruct (N.eqb_spec x sep) as [-> | Hne].
    + destruct Hf as [<- | Hf]; [destruct Hc|].
      destruct (IH f c Hf Hc). tauto.
    + destruct (split sep r) as [|g gs] eqn:E.
      * exfalso. now apply (split_nonempty sep r).
      * destruct Hf as [<- | Hf].
        -- destruct Hc as [<- | Hc]; [tauto|].
           destruct (IH g c (or_introl eq_refl) Hc). tauto.
        -- destruct (IH f c (or_intror Hf) Hc). tauto.
Qed.

Lemma split_without sep s : includes sep s = false -> split sep s = [s].
Proof.
  induction s as [|x r IH]; simpl; intros H; [reflexivity|].
  apply includes_cons_false in H as [Hne H].
  destruct (N.eqb_spec x sep); [contradiction|].
  now rewrite (IH H).
Qed.

(** The first field ends at the first separator. *)
Lemma split_first sep a r :
  includes sep a = false -> split sep (a ++ sep :: r) = a :: split sep r.
Proof.
  induction a as [|x a IH]; simpl; intros H.
  - now rewrite N.eqb_refl.
  - apply includes_cons_false in H as [Hne H].
    destruct (N.eqb_spec x sep); [contradiction|].
    now rewrite (IH H).
Qed.

Lemma trimStart_blank s :
  Forall (fun c => isWhiteSpace c = true) s -> trimStart s = [].
Proof.
  induction 1 as [|c s Hc Hs IH]; simpl; [reflexivity|].
  now rewrite Hc.
Qed.

Lemma trim_blank s :
  Forall (fun c => isWhiteSpace c = true) s -> trim s = [].
Proof.
  intros H. unfold trim, trimEnd. now rewrite (trimStart_blank s H).
Qed.

(** ** The parser *)

Lemma parsePageRanges_flat totalPages rangeStr :
  parsePageRanges totalPages rangeStr =
  sortAsc (setOf (flat_map (tokenPages totalPages) (tokens rangeStr))).
Proof. unfold parsePageRanges. now rewrite fold_left_push. Qed.

Lemma tokenPages_Accepted totalPages token p :
  In p (tokenPages totalPages token) <-> Accepted totalPages token p.
Proof.
  unfold tokenPages. split.
  - destruct (includes hyphen token) eqn:Hinc.
    + destruct (split hyphen token) as [|a [|b rest]] eqn:Hsplit; simpl.
      * intros [].
      * destruct (parseInt (trim a)); intros [].
      * destruct (parseInt (trim a)) as [start|] eqn:Ha; [|intros []].
        destruct (parseInt (trim b)) as [end_|] eqn:Hb; [|intros []].
        destruct ((0 <? start) && (end_ <=? totalPages) && (start <=? end_))
          eqn:Hok; [|intros []].
        apply andb_true_iff in Hok as [Hok H3].
        apply andb_true_iff in Hok as [H1 H2].
        rewrite span_In. intros Hp.
        eapply AcceptRange; eauto; lia.
    + destruct (parseInt token) as [page|] eqn:Hparse; [|intros []].
      destruct ((0 <? page) && (page <=? totalPages)) eqn:Hok; [|intros []].
      apply andb_true_iff in Hok as [H1 H2].
      intros [<- | []]. apply AcceptSingle; auto; lia.
  - intros [Hinc Hparse Hp | a b rest start end_ Hinc Hsplit Ha Hb H1 H2 H3 Hp].
    + rewrite Hinc, Hparse.
      replace ((0 <? p) && (p <=? totalPages)) with true; [now left|].
      symmetry. apply andb_true_iff. split; [apply Z.ltb_lt | apply Z.leb_le]; lia.
    + rewrite Hinc, Hsplit. simpl. rewrite Ha, Hb.
      replace ((0 <? start) && (end_ <=? totalPages) && (start <=? end_))
        with true; [now apply span_In|].
      symmetry. rewrite !andb_true_iff.
      repeat split; [apply Z.ltb_lt | apply Z.leb_le | apply Z.leb_le]; lia.
Qed.

Lemma parsePageRanges_In totalPages rangeStr p :
  In p (parsePageRanges totalPages rangeStr) <->
  exists token, In token (tokens rangeStr) /\ Accepted totalPages token p.
Proof.
  rewrite parsePageRanges_flat, sortAsc_In, setOf_In, in_flat_map.
  split; intros [token [Hin H]]; exists token; split; auto;
    now apply tokenPages_Accepted.
Qed.

Lemma Accepted_bounds totalPages token p :
  Accepted totalPages token p -> 1 <= p <= totalPages.
Proof. intros [? ? ? | ? ? ? ? ? ? ? ? ? ? ? ? ?]; lia. Qed.

Lemma parsePageRanges_strict totalPages rangeStr :
  strictlyAscending (parsePageRanges totalPages rangeStr).
Proof.
  rewrite parsePageRanges_flat. apply sorted_NoDup_strict.
  - apply sortAsc_sorted.
  - eapply Permutation_NoDup; [apply sortAsc_perm | apply setOf_NoDup].
Qed.

Lemma parsePageRanges_bounds totalPages rangeStr :
  Forall (fun p => 1 <= p <= totalPages) (parsePageRanges totalPages rangeStr).
Proof.
  rewrite Forall_forall. intros p Hp.
  apply parsePageRanges_In in Hp as [token [_ H]].
  now apply (Accepted_bounds totalPages token).
Qed.

(** A string of white space and commas has only empty tokens. *)
Lemma tokens_blank rangeStr :
  Forall (fun c => isWhiteSpace c = true \/ c = comma) rangeStr ->
  Forall (fun token => token = []) (tokens rangeStr).
Proof.
  intros H. unfold tokens. rewrite Forall_forall. intros token Hin.
  apply in_map_iff in Hin as [f [<- Hf]].
  apply trim_blank. rewrite Forall_forall. intros c Hc.
  destruct (split_chars comma rangeStr f c Hf Hc) as [Hin Hne].
  rewrite Forall_forall in H. destruct (H c Hin); [assumption | contradiction].
Qed.

Lemma parsePageRanges_blank totalPages rangeStr :
  Forall (fun c => isWhiteSpace c = true \/ c = comma) rangeStr ->
  parsePageRanges totalPages rangeStr = [].
Proof.
  intros H. rewrite parsePageRanges_flat.
  replace (flat_map (tokenPages totalPages) (tokens rangeStr)) with (@nil Z);
    [reflexivity|].
  symmetry. apply tokens_blank in H.
  induction H as [|token l -> _ IH]; simpl; [reflexivity | exact IH].
Qed.

(** Nothing is returned when no token is accepted. *)
Lemma parsePageRanges_none totalPages rangeStr :
  (forall token p, In token (tokens rangeStr) -> ~ Accepted totalPages token p) ->
  parsePageRanges totalPages rangeStr = [].
Proof.
  intros H. destruct (parsePageRanges totalPages rangeStr) as [|p l] eqn:E;
    [reflexivity|].
  assert (In p (parsePageRanges totalPages rangeStr)) as Hp
    by (rewrite E; now left).
  apply parsePageRanges_In in Hp as [token [Hin Hacc]].
  now destruct (H token p Hin).
Qed.

(** Fields after the second one do not matter. *)
Lemma tokenPages_extra_fields totalPages a b rest :
  includes hyphen a = false ->
  includes hyphen b = false ->
  tokenPages totalPages (a ++ hyphen :: b ++ hyphen :: rest) =
  tokenPages totalPages (a ++ hyphen :: b).
Proof.
  intros Ha Hb. unfold tokenPages.
  assert (forall r, includes hyphen (a ++ hyphen :: r) = true) as Hinc.
  { intros r. apply includes_In, in_or_app. right. now left. }
  rewrite !Hinc.
  rewrite (split_first hyphen a _ Ha), (split_first hyphen a _ Ha).
  rewrite (split_first hyphen b _ Hb), (split_without hyphen b Hb).
  simpl. destruct (parseInt (trim a)); [|reflexivity].
  destruct (parseInt (trim b)); reflexivity.
Qed.

(** ** The grouping pass *)

Lemma rangeEnd_snoc cur p : rangeEnd (cur ++ [p]) = p.
Proof.
  unfold rangeEnd. rewrite length_app. simpl.
  replace (length cur + 1 - 1)%nat with (length cur) by lia.
  now rewrite nth_middle.
Qed.

Lemma rangeEnd_cons x y l : rangeEnd (x :: y :: l) = rangeEnd (y :: l).
Proof. unfold rangeEnd. simpl. now rewrite Nat.sub_0_r. Qed.

Lemma rangeEnd_single x : rangeEnd [x] = x.
Proof. reflexivity. Qed.

Lemma previousPage_snoc pre q : previousPage (pre ++ [q]) = Some q.
Proof. unfold previousPage. now rewrite rev_app_distr. Qed.

Lemma inRange_spec totalPages page :
  inRange totalPages page = true <-> 1 <= page <= totalPages.
Proof.
  unfold inRange. rewrite negb_true_iff, orb_false_iff.
  rewrite Z.ltb_ge, Z.geb_leb, Z.leb_gt. lia.
Qed.

(** The index-based callback agrees with [stepAfter] at every position. *)
Lemma groupStep_stepAfter totalPages pre page r st :
  groupStep totalPages (pre ++ page :: r) st page (length pre) =
  stepAfter totalPages (previousPage pre) st page.
Proof.
  unfold groupStep, stepAfter, inRange.
  destruct ((page - 1 <? 0) || (page - 1 >=? totalPages)); simpl; [reflexivity|].
  destruct pre as [|x pre'] using rev_ind; [reflexivity|].
  rewrite previousPage_snoc, length_app. simpl.
  replace (length pre' + 1 - 1)%nat with (length pre') by lia.
  rewrite <- app_assoc. simpl. rewrite nth_middle.
  replace (length pre' + 1 =? 0)%nat with false; [reflexivity|].
  symmetry. apply Nat.eqb_neq. lia.
Qed.

Lemma forEachFrom_groupAfter totalPages xs : forall pre st,
  forEachFrom (groupStep totalPages (pre ++ xs)) (length pre) xs st =
  groupAfter totalPages (previousPage pre) xs st.
Proof.
  induction xs as [|page r IH]; intros pre st; simpl; [reflexivity|].
  rewrite groupStep_stepAfter.
  specialize (IH (pre ++ [page])).
  rewrite <- app_assoc, length_app, previousPage_snoc in IH. simpl in IH.
  replace (S (length pre)) with (length pre + 1)%nat by lia.
  apply IH.
Qed.

(** Pages outside the document leave the state alone. *)
Lemma groupAfter_skipped totalPages xs : forall prev st,
  Forall (fun p => inRange totalPages p = false) xs ->
  groupAfter totalPages prev xs st = st.
Proof.
  induction xs as [|p r IH]; intros prev st H; simpl; [reflexivity|].
  inversion H as [|? ? Hp Hr]; subst.
  rewrite IH by assumption. unfold stepAfter. now rewrite Hp.
Qed.

Lemma filter_none {A} (f : A -> bool) xs :
  Forall (fun p => f p = false) xs -> filter f xs = [].
Proof.
  induction 1 as [|x l Hx Hl IH]; simpl; [reflexivity|]. now rewrite Hx.
Qed.

Lemma runs_nonempty xs : Forall (fun run => run <> []) (runs xs).
Proof.
  induction xs as [|x r IH]; simpl; [constructor|].
  unfold glue. destruct (runs r) as [|[|y run] rest].
  - repeat constructor. discriminate.
  - constructor; [discriminate | assumption].
  - inversion IH; subst.
    destruct (y =? rangeEnd [x] + 1); constructor; try discriminate; auto.
Qed.

(** Gluing a run that ends in [p - 1] equals gluing it extended by [p]. *)
Lemma glue_extend cur p xs :
  p = rangeEnd cur + 1 ->
  glue cur (glue [p] (runs xs)) = glue (cur ++ [p]) (runs xs).
Proof.
  intros Hp. pose proof (runs_nonempty xs) as Hne.
  unfold glue at 2 3. rewrite rangeEnd_snoc, rangeEnd_single.
  destruct (runs xs) as [|[|y run] rest].
  - simpl. now rewrite Hp, Z.eqb_refl.
  - inversion Hne; subst. congruence.
  - destruct (y =? p + 1); simpl.
    + rewrite <- Hp, Z.eqb_refl. now rewrite <- app_assoc.
    + now rewrite <- Hp, Z.eqb_refl.
Qed.

Lemma glue_apart cur p xs :
  p <> rangeEnd cur + 1 ->
  glue cur (glue [p] (runs xs)) = cur :: glue [p] (runs xs).
Proof.
  intros Hp. pose proof (runs_nonempty xs) as Hne.
  unfold glue at 2 3. rewrite rangeEnd_single.
  apply Z.eqb_neq in Hp.
  destruct (runs xs) as [|[|y run] rest]; simpl.
  - now rewrite Hp.
  - now rewrite Hp.
  - destruct (y =? p + 1); simpl; now rewrite Hp.
Qed.

Lemma pushCurrent_cons rs x cur :
  pushCurrent (mkGroupState rs (x :: cur)) = rs ++ [x :: cur].
Proof. reflexivity. Qed.

(** The state after the rest of a sorted array, once a range is open. *)
Lemma groupAfter_open totalPages xs : forall q rs cur,
  cur <> [] -> rangeEnd cur = q -> 1 <= q ->
  StronglySorted Z.le (q :: xs) ->
  pushCurrent (groupAfter totalPages (Some q) xs (mkGroupState rs cur)) =
  rs ++ glue cur (runs (filter (inRange totalPages) xs)).
Proof.
  induction xs as [|p r IH]; intros q rs cur Hcur Hend Hq Hs.
  - simpl. destruct cur; [contradiction | reflexivity].
  - inversion Hs as [|? ? Hs' Hall]; subst.
    inversion Hall as [|? ? Hqp Hqr]; subst.
    cbn [groupAfter filter]. unfold stepAfter.
    destruct (inRange totalPages p) eqn:Hp.
    + assert (1 <= p) by (apply inRange_spec in Hp; lia).
      cbn [runs]. destruct (Z.eqb_spec p (rangeEnd cur + 1)) as [E | E]; simpl.
      * rewrite IH; auto using rangeEnd_snoc.
        -- now rewrite glue_extend.
        -- now destruct cur.
      * destruct cur as [|c cur']; [contradiction|].
        rewrite pushCurrent_cons.
        rewrite IH; auto; try discriminate.
        rewrite glue_apart by assumption.
        now rewrite <- app_assoc.
    + assert (Forall (fun x => inRange totalPages x = false) (p :: r)) as Hout.
      { assert (totalPages < p) as Hlt.
        { destruct (Z.le_gt_cases p totalPages) as [Hle|]; [|lia].
          assert (inRange totalPages p = true) by (apply inRange_spec; lia).
          congruence. }
        inversion Hs' as [|? ? _ Hpr]; subst.
        constructor; [assumption|].
        eapply Forall_impl; [|exact Hpr]. simpl. intros x Hx.
        destruct (inRange totalPages x) eqn:Ex; [|reflexivity].
        apply inRange_spec in Ex. lia. }
      inversion Hout as [|? ? _ Hr]; subst.
      rewrite groupAfter_skipped by assumption.
      rewrite (filter_none _ r Hr). simpl.
      destruct cur; [contradiction | reflexivity].
Qed.

(** The state after a sorted array, while no page has been kept yet. *)
Lemma groupAfter_start totalPages xs : forall prev,
  match prev with
  | None => True
  | Some q => q < 1 /\ Forall (fun x => q <= x) xs
  end ->
  StronglySorted Z.le xs ->
  pushCurrent (groupAfter totalPages prev xs (mkGroupState [] [])) =
  runs (filter (inRange totalPages) xs).
Proof.
  induction xs as [|p r IH]; intros prev Hprev Hs; [reflexivity|].
  inversion Hs as [|? ? Hs' Hall]; subst.
  cbn [groupAfter filter]. unfold stepAfter.
  destruct (inRange totalPages p) eqn:Hp.
  - assert (1 <= p) by (apply inRange_spec in Hp; lia).
    assert ((if match prev with
                 | None => true
                 | Some q => negb (p =? q + 1)
                 end
             then mkGroupState (pushCurrent (mkGroupState [] [])) [p]
             else mkGroupState (ranges (mkGroupState [] []))
                    (currentRange (mkGroupState [] []) ++ [p]))
            = mkGroupState [] [p]) as ->.
    { destruct prev as [q|]; [destruct (negb (p =? q + 1))|]; reflexivity. }
    rewrite (groupAfter_open totalPages r p [] [p]); auto; discriminate.
  - destruct (Z.le_gt_cases p 0) as [Hlow | Hhigh].
    + apply IH; [|assumption]. split; [lia | assumption].
    + assert (Forall (fun x => inRange totalPages x = false) r) as Hr.
      { eapply Forall_impl; [|exact Hall]. simpl. intros x Hx.
        destruct (inRange totalPages x) eqn:Ex; [|reflexivity].
        assert (inRange totalPages p = true); [|congruence].
        apply inRange_spec in Ex. apply inRange_spec. lia. }
      rewrite groupAfter_skipped by assumption.
      now rewrite (filter_none _ r Hr).
Qed.

(** The grouping pass computes the runs of the pages of the document. *)
Lemma groupPages_runs totalPages pageNumbers :
  groupPages totalPages pageNumbers =
  runs (filter (inRange totalPages) (sortAsc pageNumbers)).
Proof.
  unfold groupPages.
  rewrite (forEachFrom_groupAfter totalPages (sortAsc pageNumbers) []).
  apply groupAfter_start; [exact I | apply sortAsc_sorted].
Qed.

(** ** Runs of consecutive pages *)

Lemma pagesFrom_app n m i :
  pagesFrom (n + m) i = pagesFrom n i ++ pagesFrom m (i + Z.of_nat n).
Proof.
  revert i. induction n as [|n IH]; intros i.
  - simpl. now rewrite Z.add_0_r.
  - cbn [Nat.add pagesFrom app]. rewrite IH. do 3 f_equal. lia.
Qed.

Lemma pagesFrom_length n i : length (pagesFrom n i) = n.
Proof. revert i. induction n; intros i; simpl; auto. Qed.

Lemma rangeEnd_pagesFrom n i : rangeEnd (pagesFrom (S n) i) = i + Z.of_nat n.
Proof.
  replace (S n) with (n + 1)%nat by lia.
  rewrite pagesFrom_app. simpl. apply rangeEnd_snoc.
Qed.

Lemma span_pagesFrom n i : span i (i + Z.of_nat n) = pagesFrom (S n) i.
Proof. unfold span. f_equal. lia. Qed.

Lemma isRun_span range :
  isRun range -> span (rangeStart range) (rangeEnd range) = range.
Proof.
  intros [n [i ->]]. rewrite rangeEnd_pagesFrom. apply span_pagesFrom.
Qed.

Lemma isRun_bounds range : isRun range -> rangeStart range <= rangeEnd range.
Proof.
  intros [n [i ->]]. rewrite rangeEnd_pagesFrom. unfold rangeStart. simpl. lia.
Qed.

Lemma span_isRun a b : a <= b -> isRun (span a b).
Proof.
  intros H. exists (Z.to_nat (b - a)), a. unfold span. f_equal. lia.
Qed.

Lemma span_cons a b : a <= b -> span a b = a :: span (a + 1) b.
Proof.
  intros H. unfold span.
  replace (Z.to_nat (b - a + 1)) with (S (Z.to_nat (b - (a + 1) + 1))) by lia.
  reflexivity.
Qed.

Lemma bounds_span a b : a <= b -> bounds (span a b) = (a, b).
Proof.
  intros H. unfold bounds, span.
  replace (Z.to_nat (b - a + 1)) with (S (Z.to_nat (b - a))) by lia.
  rewrite rangeEnd_pagesFrom. unfold rangeStart. simpl. f_equal. lia.
Qed.

Lemma isRun_NoDup range : isRun range -> NoDup range.
Proof.
  intros [n [i ->]]. generalize (S n). clear n. intros n. revert i.
  induction n as [|n IH]; intros i; simpl; constructor; [|apply IH].
  rewrite pagesFrom_In. lia.
Qed.

Lemma isRun_join cur y run :
  isRun cur -> isRun (y :: run) -> y = rangeEnd cur + 1 ->
  isRun (cur ++ y :: run).
Proof.
  intros [n [i ->]] [m [j Hj]] Hy.
  rewrite rangeEnd_pagesFrom in Hy.
  assert (j = y) by (simpl in Hj; congruence). subst j.
  exists (n + S m)%nat, i. rewrite Hj.
  replace (S (n + S m)) with (S n + S m)%nat by lia.
  rewrite pagesFrom_app. do 2 f_equal. lia.
Qed.

Lemma glue_isRun cur rr :
  isRun cur -> Forall isRun rr -> Forall isRun (glue cur rr).
Proof.
  intros Hc Hr. unfold glue. destruct rr as [|[|y run] rest].
  - now constructor.
  - now constructor.
  - inversion Hr; subst.
    destruct (Z.eqb_spec y (rangeEnd cur + 1)); constructor; auto.
    now apply isRun_join.
Qed.

Lemma runs_isRun xs : Forall isRun (runs xs).
Proof.
  induction xs as [|x r IH]; simpl; [constructor|].
  apply glue_isRun; [|assumption]. now exists 0%nat, x.
Qed.

Lemma glue_concat cur rr : concat (glue cur rr) = cur ++ concat rr.
Proof.
  unfold glue. destruct rr as [|[|y run] rest]; try reflexivity.
  destruct (y =? rangeEnd cur + 1); simpl; [|reflexivity].
  now rewrite <- app_assoc.
Qed.

Lemma runs_concat xs : concat (runs xs) = xs.
Proof.
  induction xs as [|x r IH]; simpl; [reflexivity|].
  rewrite glue_concat, IH. reflexivity.
Qed.

Lemma flatten_bounds rr :
  Forall isRun rr -> flatten (map bounds rr) = concat rr.
Proof.
  induction 1 as [|run rr Hrun Hrr IH]; [reflexivity|].
  unfold flatten in *. cbn [map flat_map concat]. rewrite IH. f_equal.
  now apply isRun_span.
Qed.

Lemma bounds_join cur y run :
  cur <> [] ->
  bounds (cur ++ y :: run) = (rangeStart cur, rangeEnd (y :: run)).
Proof.
  intros Hc. unfold bounds. f_equal.
  - destruct cur; [contradiction | reflexivity].
  - unfold rangeEnd. rewrite length_app.
    rewrite app_nth2 by (simpl; lia). f_equal. simpl. lia.
Qed.

Lemma runs_separated xs : separated (map bounds (runs xs)).
Proof.
  induction xs as [|x r IH]; simpl; [exact I|].
  pose proof (runs_nonempty r) as Hne.
  unfold glue. destruct (runs r) as [|[|y run] rest].
  - exact I.
  - inversion Hne; subst. congruence.
  - rewrite rangeEnd_single.
    destruct (Z.eqb_spec y (x + 1)) as [E | E].
    + cbn [map]. rewrite bounds_join by discriminate.
      cbn [map] in IH. destruct (map bounds rest); [exact I|].
      exact IH.
    + cbn [map]. cbn [map] in IH. split; [|exact IH].
      unfold bounds, rangeStart, rangeEnd. simpl. lia.
Qed.

(** A run in front of a list joins the runs of the list like one page. *)
Lemma glue_front i run rr :
  isRun run -> rangeStart run = i + 1 -> Forall (fun r => r <> []) rr ->
  glue [i] (glue run rr) = glue (i :: run) rr.
Proof.
  intros Hrun Hstart Hne.
  destruct run as [|x run']; [destruct Hrun as [? [? ?]]; discriminate|].
  unfold rangeStart in Hstart. simpl in Hstart. subst x.
  unfold glue at 2 3. rewrite rangeEnd_cons.
  destruct rr as [|[|y more] rest].
  - simpl. rewrite rangeEnd_single. now rewrite Z.eqb_refl.
  - inversion Hne; subst. congruence.
  - destruct (y =? rangeEnd (i + 1 :: run') + 1); simpl;
      rewrite rangeEnd_single, Z.eqb_refl; reflexivity.
Qed.

Lemma runs_front n : forall i t,
  runs (pagesFrom (S n) i ++ t) = glue (pagesFrom (S n) i) (runs t).
Proof.
  induction n as [|n IH]; intros i t; [reflexivity|].
  change (pagesFrom (S (S n)) i) with (i :: pagesFrom (S n) (i + 1)).
  cbn [app runs]. rewrite IH.
  apply glue_front; [now exists n, (i + 1) | reflexivity | apply runs_nonempty].
Qed.

Lemma runs_span_front a b t :
  a <= b -> runs (span a b ++ t) = glue (span a b) (runs t).
Proof.
  intros H. unfold span.
  replace (Z.to_nat (b - a + 1)) with (S (Z.to_nat (b - a))) by lia.
  apply runs_front.
Qed.

Lemma glue_cases cur rr :
  glue cur rr = cur :: rr \/ length (glue cur rr) = length rr.
Proof.
  unfold glue. destruct rr as [|[|y run] rest]; auto.
  destruct (y =? rangeEnd cur + 1); auto.
Qed.

Lemma glue_length cur rr : (length (glue cur rr) <= S (length rr))%nat.
Proof.
  destruct (glue_cases cur rr) as [-> | ->]; simpl; lia.
Qed.

(** No cover of a selection has fewer ranges than its runs. *)
Lemma runs_minimal rs :
  Forall (fun r => fst r <= snd r) rs ->
  (length (runs (flatten rs)) <= length rs)%nat.
Proof.
  induction 1 as [|[a b] rs Hab Hrs IH]; simpl; [lia|].
  simpl in Hab. rewrite runs_span_front by assumption.
  pose proof (glue_length (span a b) (runs (flatten rs))).
  unfold flatten in *. lia.
Qed.

(** A cover with as many ranges as there are runs is the runs. *)
Lemma runs_minimal_unique rs :
  Forall (fun r => fst r <= snd r) rs ->
  length rs = length (runs (flatten rs)) ->
  map bounds (runs (flatten rs)) = rs.
Proof.
  induction 1 as [|[a b] rs Hab Hrs IH]; simpl; [reflexivity|].
  simpl in Hab. rewrite runs_span_front by assumption.
  pose proof (runs_minimal rs Hrs) as Hmin. unfold flatten in *.
  intros Hlen.
  destruct (glue_cases (span a b) (runs (flat_map (fun r => span (fst r) (snd r)) rs)))
    as [E | E].
  - rewrite E in *. simpl in *. rewrite IH by lia.
    now rewrite bounds_span.
  - lia.
Qed.

(** A separated cover is the runs. *)
Lemma runs_separated_unique rs :
  Forall (fun r => fst r <= snd r) rs ->
  separated rs ->
  map bounds (runs (flatten rs)) = rs.
Proof.
  induction 1 as [|[a b] rs Hab Hrs IH]; intros Hsep; [reflexivity|].
  simpl in Hab.
  assert (separated rs) as Hsep'.
  { destruct rs; [exact I | apply Hsep]. }
  specialize (IH Hsep').
  change (flatten ((a, b) :: rs)) with (span a b ++ flatten rs).
  rewrite runs_span_front by assumption.
  pose proof (runs_nonempty (flatten rs)) as Hne.
  unfold glue. destruct (runs (flatten rs)) as [|[|y run] rest].
  - simpl in *. subst rs. now rewrite bounds_span.
  - inversion Hne; subst. congruence.
  - destruct rs as [|[c d] rs']; [discriminate|].
    cbn [map] in IH. injection IH as Hy Hd Hrest.
    unfold rangeStart in Hy. simpl in Hy. subst y.
    destruct Hsep as [Hne' _]. simpl in Hne'.
    replace (rangeEnd (span a b)) with b
      by (pose proof (bounds_span a b Hab) as Hbs; unfold bounds in Hbs; congruence).
    destruct (Z.eqb_spec c (b + 1)) as [E | E]; [lia|].
    cbn [map]. rewrite bounds_span by assumption.
    unfold bounds at 1. unfold rangeStart at 1. simpl nth at 1.
    now rewrite Hd, Hrest.
Qed.

(** ** The grouping as a sequence of ranges *)

Lemma compact_runs totalPages selection :
  compact totalPages selection =
  map bounds (runs (filter (inRange totalPages) (sortAsc selection))).
Proof. unfold compact. now rewrite groupPages_runs. Qed.

Lemma filter_inRange_all totalPages xs :
  Forall (fun p => 1 <= p <= totalPages) xs ->
  filter (inRange totalPages) xs = xs.
Proof.
  induction 1 as [|x l Hx Hl IH]; simpl; [reflexivity|].
  apply inRange_spec in Hx. now rewrite Hx, IH.
Qed.

Lemma filter_inRange_bounds totalPages xs :
  Forall (fun p => 1 <= p <= totalPages) (filter (inRange totalPages) xs).
Proof.
  rewrite Forall_forall. intros p Hp.
  apply filter_In in Hp as [_ Hp]. now apply inRange_spec.
Qed.

Lemma filter_sorted (f : Z -> bool) xs :
  StronglySorted Z.le xs -> StronglySorted Z.le (filter f xs).
Proof.
  induction 1 as [|x l Hs IH Hall]; simpl; [constructor|].
  destruct (f x); [|assumption].
  constructor; [assumption|].
  rewrite Forall_forall in *. intros y Hy.
  apply filter_In in Hy as [Hy _]. now apply Hall.
Qed.

Lemma Permutation_filter (f : Z -> bool) xs ys :
  Permutation xs ys -> Permutation (filter f xs) (filter f ys).
Proof.
  induction 1 as [|x l l' Hp IH|x y l|l l' l'' H1 IH1 H2 IH2]; simpl.
  - constructor.
  - destruct (f x); [now constructor | assumption].
  - destruct (f x), (f y); try reflexivity. apply perm_swap.
  - now transitivity (filter f l').
Qed.

(** The pages kept by the grouping pass, in the order of the ranges. *)
Lemma groupPages_concat totalPages pageNumbers :
  concat (groupPages totalPages pageNumbers) =
  filter (inRange totalPages) (sortAsc pageNumbers).
Proof. rewrite groupPages_runs. apply runs_concat. Qed.

Lemma compact_ascending_input totalPages selection :
  strictlyAscending selection ->
  Forall (fun p => 1 <= p <= totalPages) selection ->
  compact totalPages selection = map bounds (runs selection).
Proof.
  intros Hs Hb. rewrite compact_runs.
  rewrite (sortAsc_sorted_id selection) by now apply strict_sorted_le.
  now rewrite filter_inRange_all.
Qed.

Lemma runs_covers xs : covers (map bounds (runs xs)) xs.
Proof.
  split.
  - rewrite Forall_map. eapply Forall_impl; [|apply runs_isRun].
    intros run Hrun. now apply isRun_bounds.
  - rewrite flatten_bounds by apply runs_isRun. apply runs_concat.
Qed.

Lemma compact_flatten totalPages selection :
  flatten (compact totalPages selection) =
  filter (inRange totalPages) (sortAsc selection).
Proof. rewrite compact_runs. apply runs_covers. Qed.

(** Compacting a sorted list of pages of the document gives its runs. *)
Lemma compact_sorted_input totalPages xs :
  StronglySorted Z.le xs ->
  Forall (fun p => 1 <= p <= totalPages) xs ->
  compact totalPages xs = map bounds (runs xs).
Proof.
  intros Hs Hb. rewrite compact_runs.
  rewrite (sortAsc_sorted_id xs Hs). now rewrite filter_inRange_all.
Qed.

(** ** Pages and the ranges that hold them *)

Lemma count_in_run p run :
  NoDup run ->
  count_occ Z.eq_dec run p = if existsb (Z.eqb p) run then 1%nat else 0%nat.
Proof.
  intros Hnd. destruct (existsb (Z.eqb p) run) eqn:E.
  - apply existsb_Zeqb_In in E.
    apply (NoDup_count_occ' Z.eq_dec); assumption.
  - apply count_occ_not_In. intros Hin.
    apply existsb_Zeqb_In in Hin. congruence.
Qed.

Lemma count_in_ranges p rr :
  Forall isRun rr ->
  count_occ Z.eq_dec (concat rr) p = length (rangesContaining p rr).
Proof.
  induction 1 as [|run rr Hrun Hrr IH]; simpl; [reflexivity|].
  rewrite count_occ_app, IH, (count_in_run p run) by now apply isRun_NoDup.
  destruct (existsb (Z.eqb p) run); reflexivity.
Qed.

Lemma exactlyOneRange_NoDup rr :
  Forall isRun rr -> (exactlyOneRange rr <-> NoDup (concat rr)).
Proof.
  intros Hrr. rewrite (NoDup_count_occ' Z.eq_dec). unfold exactlyOneRange.
  split; intros H p Hp; specialize (H p Hp);
    rewrite count_in_ranges in * by assumption; assumption.
Qed.

Lemma groupPages_isRun totalPages pageNumbers :
  Forall isRun (groupPages totalPages pageNumbers).
Proof. rewrite groupPages_runs. apply runs_isRun. Qed.

Lemma groupPages_exactlyOne totalPages pageNumbers :
  exactlyOneRange (groupPages totalPages pageNumbers) <->
  NoDup (filter (inRange totalPages) pageNumbers).
Proof.
  rewrite exactlyOneRange_NoDup by apply groupPages_isRun.
  rewrite groupPages_concat.
  assert (Permutation (filter (inRange totalPages) pageNumbers)
                      (filter (inRange totalPages) (sortAsc pageNumbers))) as Hp
    by apply Permutation_filter, sortAsc_perm.
  split; apply Permutation_NoDup; [symmetry|]; exact Hp.
Qed.

(** Ranges of a strictly ascending list come in ascending order. *)
Lemma runs_head y run rest xs :
  runs xs = (y :: run) :: rest -> exists r, xs = y :: r.
Proof.
  destruct xs as [|x r]; simpl; [discriminate|].
  unfold glue. destruct (runs r) as [|[|z more] others].
  - intros H. injection H as -> _ _. now exists r.
  - intros H. injection H as -> _ _. now exists r.
  - destruct (z =? rangeEnd [x] + 1); intros H; injection H as -> _ _;
      now exists r.
Qed.

Lemma runs_ascending xs :
  strictlyAscending xs -> ascendingRanges (map bounds (runs xs)).
Proof.
  induction 1 as [|x r Hs IH Hall]; simpl; [exact I|].
  pose proof (runs_nonempty r) as Hne.
  unfold glue. destruct (runs r) as [|[|y run] rest] eqn:E.
  - exact I.
  - inversion Hne; subst. congruence.
  - destruct (runs_head _ _ _ _ E) as [r' ->].
    inversion Hall as [|? ? Hxy _]; subst.
    rewrite rangeEnd_single.
    destruct (Z.eqb_spec y (x + 1)) as [E' | E'].
    + cbn [map]. rewrite bounds_join by discriminate.
      cbn [map] in IH. destruct (map bounds rest); [exact I|]. exact IH.
    + cbn [map]. cbn [map] in IH. split; [|exact IH].
      unfold bounds, rangeStart, rangeEnd. simpl. lia.
Qed.

Lemma compact_ascending totalPages pageNumbers :
  NoDup pageNumbers -> ascendingRanges (compact totalPages pageNumbers).
Proof.
  intros Hnd. rewrite compact_runs. apply runs_ascending.
  apply sorted_NoDup_strict.
  - apply filter_sorted, sortAsc_sorted.
  - apply NoDup_filter.
    eapply Permutation_NoDup; [apply sortAsc_perm | assumption].
Qed.

(** ** Naming *)

Lemma startsWith_split prefix : forall s,
  startsWith prefix s = true -> s = prefix ++ skipn (length prefix) s.
Proof.
  induction prefix as [|a p IH]; intros s H; [reflexivity|].
  destruct s as [|b r]; [discriminate|]. simpl in H.
  apply andb_true_iff in H as [Hab Hp]. apply N.eqb_eq in Hab. subst b.
  simpl. f_equal. now apply IH.
Qed.

Lemma startsWith_app prefix s : startsWith prefix (prefix ++ s) = true.
Proof.
  induction prefix as [|a p IH]; [reflexivity|].
  simpl. now rewrite N.eqb_refl.
Qed.

(** [replace] rewrites the first occurrence of the search string. *)
Lemma replace_first search replacement : forall s,
  containsString search s = true ->
  exists pre post,
    s = pre ++ search ++ post /\
    replace search replacement s = pre ++ replacement ++ post /\
    (forall pre' post',
        s = pre' ++ search ++ post' -> (length pre <= length pre')%nat).
Proof.
  induction s as [|c r IH]; intros H.
  - cbn [containsString] in H. rewrite orb_false_r in H.
    exists [], (skipn (length search) []). split; [|split].
    + exact (startsWith_split search [] H).
    + cbn [replace]. now rewrite H.
    + intros. simpl. lia.
  - destruct (startsWith search (c :: r)) eqn:E.
    + exists [], (skipn (length search) (c :: r)). split; [|split].
      * exact (startsWith_split search (c :: r) E).
      * cbn [replace]. now rewrite E.
      * intros. simpl. lia.
    + cbn [containsString] in H. rewrite E in H. simpl in H.
      destruct (IH H) as [pre [post [Hs [Hr Hmin]]]].
      exists (c :: pre), post. cbn [replace]. rewrite E.
      repeat split.
      * simpl. now rewrite <- Hs.
      * simpl. now rewrite Hr.
      * intros pre' post' Hs'. destruct pre' as [|c' pre''].
        -- rewrite app_nil_l in Hs'. rewrite Hs' in E.
           rewrite startsWith_app in E. discriminate.
        -- simpl in Hs'. injection Hs' as -> Hs'.
           specialize (Hmin pre'' post' Hs'). simpl. lia.
Qed.

Lemma span_length_one start end_ :
  start <= end_ -> (length (span start end_) =? 1)%nat = (start =? end_).
Proof.
  intros H. unfold span. rewrite pagesFrom_length.
  destruct (Z.eqb_spec start end_) as [-> | Hne].
  - replace (end_ - end_ + 1) with 1 by lia. reflexivity.
  - apply Nat.eqb_neq. lia.
Qed.

Lemma rangeName_replace start end_ namingPattern :
  start <= end_ ->
  rangeName (start, end_) namingPattern =
  replace placeholder (substituted start end_) namingPattern.
Proof.
  intros H. unfold rangeName, rangeFileName, substituted. cbn [fst snd].
  rewrite span_length_one by assumption.
  pose proof (bounds_span start end_ H) as Hb. unfold bounds in Hb.
  injection Hb as -> ->. now destruct (start =? end_).
Qed.

Lemma rangeName_of_run namingPattern range :
  isRun range -> rangeName (bounds range) namingPattern =
                 rangeFileName namingPattern range.
Proof.
  intros Hrun. unfold rangeName, bounds. cbn [fst snd].
  now rewrite isRun_span.
Qed.

(** ** Splitting and compressing on a platform *)

Section PlatformFacts.

Context {platform : Platform}.

Lemma promiseAllMap_ok {A B : Type} (f : A -> exn + B) (xs : list A) :
  (forall x, In x xs -> exists y, f x = inr y) ->
  exists ys, promiseAllMap f xs = inr ys /\
             Forall2 (fun x y => f x = inr y) xs ys.
Proof.
  induction xs as [|x r IH]; intros H.
  - exists []. split; [reflexivity | constructor].
  - destruct (H x (or_introl eq_refl)) as [y Hy].
    destruct IH as [ys [Hys Hall]]; [intros z Hz; apply H; now right|].
    exists (y :: ys). split; [|now constructor].
    cbn [promiseAllMap]. rewrite Hy. simpl. now rewrite Hys.
Qed.

Lemma splitRange_name pdfDoc namingPattern range doc :
  splitRange pdfDoc namingPattern range = inr doc ->
  splitName doc = rangeFileName namingPattern range ++ js ".pdf".
Proof.
  unfold splitRange. destruct create as [e | newPdf]; simpl; [discriminate|].
  destruct (copyPages newPdf pdfDoc _) as [e | copied]; simpl; [discriminate|].
  destruct (foldM _ _ _) as [e | newPdf']; simpl; [discriminate|].
  destruct (save newPdf' None) as [e | newPdfBytes]; simpl; [discriminate|].
  intros H. injection H as <-. reflexivity.
Qed.

Lemma createSplitDocuments_pdf originalFile pageNumbers namingPattern :
  takesPdfBranch originalFile ->
  createSplitDocuments originalFile pageNumbers namingPattern =
  splitPdf (content originalFile) pageNumbers namingPattern.
Proof.
  intros [Htype Hext]. unfold createSplitDocuments.
  rewrite Htype, Hext. reflexivity.
Qed.

Lemma splitPdf_ok originalContent pageNumbers namingPattern pdfDoc :
  load originalContent None = inr pdfDoc ->
  (forall range,
      In range (groupPages (getPageCount pdfDoc) pageNumbers) ->
      exists doc, splitRange pdfDoc namingPattern range = inr doc) ->
  exists docs,
    splitPdf originalContent pageNumbers namingPattern = inr docs /\
    Forall2 (fun range doc => splitRange pdfDoc namingPattern range = inr doc)
            (groupPages (getPageCount pdfDoc) pageNumbers) docs.
Proof.
  intros Hload Hok.
  destruct (promiseAllMap_ok (splitRange pdfDoc namingPattern) _ Hok)
    as [docs [Hdocs Hall]].
  exists docs. split; [|assumption].
  unfold splitPdf. rewrite Hload. simpl. now rewrite Hdocs.
Qed.

Lemma Forall2_names pdfDoc namingPattern ranges docs :
  Forall isRun ranges ->
  Forall2 (fun range doc => splitRange pdfDoc namingPattern range = inr doc)
          ranges docs ->
  map splitName docs =
  map (fun r => rangeName r namingPattern ++ js ".pdf") (map bounds ranges).
Proof.
  intros Hruns H. induction H as [|range doc ranges docs Hd Hrest IH];
    [reflexivity|].
  inversion Hruns; subst. cbn [map]. rewrite IH by assumption.
  rewrite (splitRange_name _ _ _ _ Hd), rangeName_of_run by assumption.
  reflexivity.
Qed.

(** When no attempt makes the file smaller, the [try] block throws or
    returns the original. *)
(** A throw anywhere in the [try] block ends it: the attempts after the one
    that throws are never looked at. *)
Lemma compressPdf_fallback arrayBuffer fileType level :
  (forall pdfDoc,
      load arrayBuffer (Some (mkLoadOptions false true false)) = inr pdfDoc ->
      let o := getCompressionOptions (orElse level (js "medium")) in
      attemptsMadeFail arrayBuffer
        [firstAttempt pdfDoc o; secondAttempt pdfDoc o;
         thirdAttempt pdfDoc o; fourthAttempt pdfDoc o]) ->
  match compressPdf arrayBuffer fileType level with
  | inl _ => True
  | inr blob => blob = mkBlob (PartBuffer arrayBuffer) fileType
  end.
Proof.
  intros H. unfold compressPdf.
  destruct (load arrayBuffer _) as [e | pdfDoc]; simpl; [exact I|].
  specialize (H pdfDoc eq_refl). cbv zeta in H.
  set (o := getCompressionOptions (orElse level (js "medium"))) in *.
  unfold retryIfNotSmaller.
  destruct (firstAttempt pdfDoc o) as [e | b1]; simpl; [exact I|].
  destruct H as [H1 H]. apply Nat.leb_le in H1. rewrite H1.
  destruct (secondAttempt pdfDoc o) as [e | b2]; simpl; [exact I|].
  destruct H as [H2 H]. apply Nat.leb_le in H2. rewrite H2.
  destruct (thirdAttempt pdfDoc o) as [e | b3]; simpl; [exact I|].
  destruct H as [H3 H]. apply Nat.leb_le in H3. rewrite H3.
  destruct (fourthAttempt pdfDoc o) as [e | b4]; simpl; [exact I|].
  destruct H as [H4 _]. apply Nat.leb_le in H4. now rewrite H4.
Qed.

End PlatformFacts.

(** * The claims *)

(** ** Parser *)

(** C2.  For every range string and every page count, the list returned by
    [parsePageRanges] is strictly ascending, has no duplicate, and holds
    only pages [p] with [1 <= p <= totalPages]. *)
Theorem parse_strictly_ascending_in_bounds (totalPages : Z)
    (rangeStr : jsstring) :
  strictlyAscending (parsePageRanges totalPages rangeStr) /\
  NoDup (parsePageRanges totalPages rangeStr) /\
  Forall (fun p => 1 <= p <= totalPages) (parsePageRanges totalPages rangeStr).
Proof.
  split; [|split].
  - apply parsePageRanges_strict.
  - apply strict_NoDup, parsePageRanges_strict.
  - apply parsePageRanges_bounds.
Qed.

(** C4.  [parsePageRanges] is a total function: whatever the input it
    returns a list and never fails.  The list holds only pages of accepted
    tokens (a partial result when some tokens are invalid) and is empty
    when no token is accepted.  A string made only of white space and
    commas, the empty string among them, gives the empty list. *)
Theorem parse_never_fails (totalPages : Z) (rangeStr : jsstring) :
  Forall (fun p => exists token,
              In token (tokens rangeStr) /\ Accepted totalPages token p)
         (parsePageRanges totalPages rangeStr) /\
  ((forall token p,
       In token (tokens rangeStr) -> ~ Accepted totalPages token p) ->
   parsePageRanges totalPages rangeStr = []) /\
  (Forall (fun c => isWhiteSpace c = true \/ c = comma) rangeStr ->
   parsePageRanges totalPages rangeStr = []) /\
  parsePageRanges totalPages [] = [].
Proof.
  split; [|split; [|split]].
  - rewrite Forall_forall. intros p Hp. now apply parsePageRanges_In.
  - apply parsePageRanges_none.
  - apply parsePageRanges_blank.
  - reflexivity.
Qed.

Lemma parse_never_fails_witness :
  Forall (fun c => isWhiteSpace c = true \/ c = comma) (js " , ,,  ") /\
  parsePageRanges 10 (js " , ,,  ") = [].
Proof.
  assert (Forall (fun c => isWhiteSpace c = true \/ c = comma) (js " , ,,  "))
    as H by (repeat constructor; (now left) || (now right)).
  split; [exact H|].
  exact (proj1 (proj2 (proj2 (parse_never_fails 10 (js " , ,,  ")))) H).
Defined.

(** C10.  In a token with two or more hyphens only the first two
    hyphen-separated fields are read as the endpoints and the rest is
    ignored: the token [a-b-rest] gives the pages of [a-b].  So a token
    outside the grammar of the specification can be accepted:
    "1-3-5" with ten pages gives [1, 2, 3]. *)
Theorem extra_hyphen_fields_ignored (totalPages : Z) (a b rest : jsstring) :
  includes hyphen a = false ->
  includes hyphen b = false ->
  tokenPages totalPages (a ++ hyphen :: b ++ hyphen :: rest) =
  tokenPages totalPages (a ++ hyphen :: b) /\
  parsePageRanges 10 (js "1-3-5") = [1; 2; 3].
Proof.
  intros Ha Hb. split; [now apply tokenPages_extra_fields | reflexivity].
Qed.

Lemma extra_hyphen_fields_ignored_witness :
  includes hyphen (js "1") = false /\
  includes hyphen (js "3") = false /\
  tokenPages 10 (js "1" ++ hyphen :: js "3" ++ hyphen :: js "5") =
  tokenPages 10 (js "1" ++ hyphen :: js "3") /\
  parsePageRanges 10 (js "1-3-5") = [1; 2; 3].
Proof.
  split; [reflexivity|]. split; [reflexivity|].
  exact (extra_hyphen_fields_ignored 10 (js "1") (js "3") (js "5")
           eq_refl eq_refl).
Defined.

(** ** Compactor *)

(** C3.  For every strictly ascending selection of pages of the document,
    [compact] returns ranges [(start, end)] with [start <= end] whose spans,
    put end to end, are the selection, and in which no range starts right
    after the end of the one before it.  No sequence of ranges that covers
    the selection is shorter; one of the same length, or one without
    mergeable neighbours, is [compact]'s.  The selection
    [1,2,3,5,7,8,9] gives [(1,3),(5,5),(7,9)] and the empty selection gives
    no range. *)
Theorem compact_minimal_cover (totalPages : Z) (selection : list Z) :
  strictlyAscending selection ->
  Forall (fun p => 1 <= p <= totalPages) selection ->
  covers (compact totalPages selection) selection /\
  separated (compact totalPages selection) /\
  (forall rs, covers rs selection ->
     (length (compact totalPages selection) <= length rs)%nat /\
     (length rs = length (compact totalPages selection) ->
      rs = compact totalPages selection) /\
     (separated rs -> rs = compact totalPages selection)) /\
  (selection = [1; 2; 3; 5; 7; 8; 9] ->
   compact totalPages selection = [(1, 3); (5, 5); (7, 9)]) /\
  (selection = [] -> compact totalPages selection = []).
Proof.
  intros Hs Hb. rewrite (compact_ascending_input _ _ Hs Hb).
  split; [apply runs_covers|]. split; [apply runs_separated|].
  split; [|split].
  - intros rs [Hwf Hflat]. subst selection. split; [|split].
    + rewrite length_map. now apply runs_minimal.
    + rewrite length_map. intros Hlen. symmetry.
      now apply runs_minimal_unique.
    + intros Hsep. symmetry. now apply runs_separated_unique.
  - intros ->. reflexivity.
  - intros ->. reflexivity.
Qed.

Lemma compact_minimal_cover_witness :
  strictlyAscending [1; 2; 3; 5; 7; 8; 9] /\
  Forall (fun p => 1 <= p <= 10) [1; 2; 3; 5; 7; 8; 9] /\
  compact 10 [1; 2; 3; 5; 7; 8; 9] = [(1, 3); (5, 5); (7, 9)].
Proof.
  assert (strictlyAscending [1; 2; 3; 5; 7; 8; 9]) as Hs
    by (repeat constructor; lia).
  assert (Forall (fun p => 1 <= p <= 10) [1; 2; 3; 5; 7; 8; 9]) as Hb
    by (repeat constructor; lia).
  split; [exact Hs|]. split; [exact Hb|].
  exact (proj1 (proj2 (proj2 (proj2
           (compact_minimal_cover 10 [1; 2; 3; 5; 7; 8; 9] Hs Hb)))) eq_refl).
Defined.

(** C6.  Compaction is idempotent: expanding the ranges of [compact] into
    their pages and compacting again gives the same ranges, for every
    selection (a strictly ascending one in particular). *)
Theorem compact_idempotent (totalPages : Z) (selection : list Z) :
  compact totalPages (flatten (compact totalPages selection)) =
  compact totalPages selection.
Proof.
  rewrite compact_flatten. rewrite (compact_runs totalPages selection).
  apply compact_sorted_input.
  - apply filter_sorted, sortAsc_sorted.
  - apply filter_inRange_bounds.
Qed.

(** C9.  The grouping pass sorts its argument but keeps duplicates: on
    [1, 2, 2, 3] it returns the ranges [1, 2] and [2, 3], which both hold
    page 2.  Every page of the ranges belongs to exactly one range if and
    only if the pages of the document in the argument are free of
    duplicates; for an argument within the document, if and only if the
    argument is. *)
Theorem duplicates_break_partition (totalPages : Z) (pageNumbers : list Z) :
  (exactlyOneRange (groupPages totalPages pageNumbers) <->
   NoDup (filter (inRange totalPages) pageNumbers)) /\
  (Forall (fun p => 1 <= p <= totalPages) pageNumbers ->
   (exactlyOneRange (groupPages totalPages pageNumbers) <->
    NoDup pageNumbers)) /\
  groupPages 5 [1; 2; 2; 3] = [[1; 2]; [2; 3]] /\
  rangesContaining 2 (groupPages 5 [1; 2; 2; 3]) = [[1; 2]; [2; 3]].
Proof.
  split; [apply groupPages_exactlyOne|]. split; [|split; reflexivity].
  intros Hb. rewrite groupPages_exactlyOne.
  now rewrite filter_inRange_all.
Qed.

Lemma duplicates_break_partition_witness :
  Forall (fun p => 1 <= p <= 5) [1; 2; 2; 3] /\
  (exactlyOneRange (groupPages 5 [1; 2; 2; 3]) <-> NoDup [1; 2; 2; 3]) /\
  length (rangesContaining 2 (groupPages 5 [1; 2; 2; 3])) = 2%nat.
Proof.
  assert (Forall (fun p => 1 <= p <= 5) [1; 2; 2; 3]) as Hb
    by (repeat constructor; lia).
  split; [exact Hb|]. split; [|reflexivity].
  exact (proj1 (proj2 (duplicates_break_partition 5 [1; 2; 2; 3])) Hb).
Defined.

(** ** Naming and splitting *)

(** C7.  For every range [(start, end)] with [start <= end] and every
    pattern that contains the placeholder, the output name is the pattern
    with its first placeholder replaced by the page number when
    [start = end], and by [start-end] otherwise:
    name((7,9), "part{n}") = "part7-9" and name((5,5), "part{n}") = "part5". *)
Theorem name_substitutes_placeholder (start end_ : Z)
    (namingPattern : jsstring) :
  start <= end_ ->
  containsString placeholder namingPattern = true ->
  (exists pre post,
      namingPattern = pre ++ placeholder ++ post /\
      rangeName (start, end_) namingPattern =
        pre ++ substituted start end_ ++ post /\
      (forall pre' post',
          namingPattern = pre' ++ placeholder ++ post' ->
          (length pre <= length pre')%nat)) /\
  rangeName (7, 9) (js "part{n}") = js "part7-9" /\
  rangeName (5, 5) (js "part{n}") = js "part5".
Proof.
  intros Hle Hin. split; [|split; reflexivity].
  rewrite rangeName_replace by assumption.
  now apply replace_first.
Qed.

Lemma name_substitutes_placeholder_witness :
  7 <= 9 /\
  containsString placeholder (js "report_part{n}_v2") = true /\
  exists pre post,
    js "report_part{n}_v2" = pre ++ placeholder ++ post /\
    rangeName (7, 9) (js "report_part{n}_v2") =
      pre ++ substituted 7 9 ++ post.
Proof.
  assert (7 <= 9) as Hle by lia.
  split; [exact Hle|]. split; [reflexivity|].
  destruct (proj1 (name_substitutes_placeholder 7 9 (js "report_part{n}_v2")
                     Hle eq_refl)) as [pre [post [Hpat [Hname _]]]].
  exists pre, post. split; [exact Hpat | exact Hname].
Defined.

Example name_with_suffix :
  rangeName (7, 9) (js "report_part{n}_v2") = js "report_part7-9_v2".
Proof. reflexivity. Qed.

Example name_first_placeholder_only :
  rangeName (2, 2) (js "{n}_of_{n}") = js "2_of_{n}".
Proof. reflexivity. Qed.

(** C5.  For a PDF input and a duplicate-free selection of pages of the
    document, when pdf-lib loads the file and extracts every range,
    [createSplitDocuments] returns exactly one document per range of the
    compacted selection, the i-th document being the extraction of the
    i-th range and carrying its name; the ranges are in ascending order and
    cover the sorted selection. *)
Theorem split_one_document_per_range `{Platform} (originalFile : File)
    (pageNumbers : list Z) (namingPattern : jsstring)
    (pdfDoc : PDFDocument) :
  NoDup pageNumbers ->
  Forall (fun p => 1 <= p <= getPageCount pdfDoc) pageNumbers ->
  takesPdfBranch originalFile ->
  load (content originalFile) None = inr pdfDoc ->
  (forall range,
      In range (groupPages (getPageCount pdfDoc) pageNumbers) ->
      exists doc, splitRange pdfDoc namingPattern range = inr doc) ->
  exists docs,
    createSplitDocuments originalFile pageNumbers namingPattern = inr docs /\
    length docs = length (compact (getPageCount pdfDoc) pageNumbers) /\
    Forall2 (fun range doc => splitRange pdfDoc namingPattern range = inr doc)
            (groupPages (getPageCount pdfDoc) pageNumbers) docs /\
    map splitName docs =
      map (fun r => rangeName r namingPattern ++ js ".pdf")
          (compact (getPageCount pdfDoc) pageNumbers) /\
    ascendingRanges (compact (getPageCount pdfDoc) pageNumbers) /\
    flatten (compact (getPageCount pdfDoc) pageNumbers) = sortAsc pageNumbers.
Proof.
  intros Hnd Hb Hpdf Hload Hok.
  destruct (splitPdf_ok _ pageNumbers namingPattern pdfDoc Hload Hok)
    as [docs [Hdocs Hall]].
  exists docs. split; [|split; [|split; [|split; [|split]]]].
  - now rewrite createSplitDocuments_pdf.
  - unfold compact. rewrite length_map. symmetry.
    eapply Forall2_length; eassumption.
  - assumption.
  - unfold compact. eapply Forall2_names; [apply groupPages_isRun | eassumption].
  - now apply compact_ascending.
  - rewrite compact_flatten. apply filter_inRange_all.
    rewrite Forall_forall in *. intros p Hp. apply Hb.
    now apply sortAsc_In.
Qed.

Lemma split_one_document_per_range_witness :
  NoDup [3; 1; 2; 5] /\
  Forall (fun p => 1 <= p <= 5) [3; 1; 2; 5] /\
  @takesPdfBranch toyPlatform sampleFile /\
  exists docs,
    @createSplitDocuments toyPlatform sampleFile [3; 1; 2; 5]
      (js "report_part{n}") = inr docs /\
    map splitName docs = [js "report_part1-3.pdf"; js "report_part5.pdf"].
Proof.
  assert (NoDup [3; 1; 2; 5]) as Hnd.
  { repeat constructor; simpl; intuition discriminate. }
  assert (Forall (fun p => 1 <= p <= 5) [3; 1; 2; 5]) as Hb
    by (repeat constructor; lia).
  assert (@takesPdfBranch toyPlatform sampleFile) as Hpdf
    by (split; reflexivity).
  split; [exact Hnd|]. split; [exact Hb|]. split; [exact Hpdf|].
  destruct (@split_one_document_per_range toyPlatform sampleFile
              [3; 1; 2; 5] (js "report_part{n}") [1; 2; 3; 4; 5]
              Hnd Hb Hpdf eq_refl)
    as [docs [Hdocs [_ [_ [Hnames _]]]]].
  - intros range Hin. vm_compute in Hin.
    destruct Hin as [<- | [<- | []]]; eexists; reflexivity.
  - exists docs. split; [exact Hdocs | exact Hnames].
Defined.

(** ** Compression fallback *)

(** C8.  For a PDF input, if every save attempt that is made throws or
    returns at least as many bytes as the original, [createProcessedDocument]
    returns a blob made of exactly the bytes of the original file, with the
    type of the original file.  An attempt is made only when the ones before
    it returned without making the file smaller: nothing is asked of the
    attempts that follow a throw. *)
Theorem compress_fallback_original `{Platform} (originalFile : File)
    (newFilename : jsstring) (compressionLevel : option jsstring) :
  strictEq (extensionOf toLowerCase originalFile) (js "pdf") = true ->
  (forall pdfDoc level,
      compressionLevel = Some level ->
      load (content originalFile) (Some (mkLoadOptions false true false))
        = inr pdfDoc ->
      attemptsMadeFail (content originalFile)
        [firstAttempt pdfDoc
           (getCompressionOptions (orElse level (js "medium")));
         secondAttempt pdfDoc
           (getCompressionOptions (orElse level (js "medium")));
         thirdAttempt pdfDoc
           (getCompressionOptions (orElse level (js "medium")));
         fourthAttempt pdfDoc
           (getCompressionOptions (orElse level (js "medium")))]) ->
  createProcessedDocument originalFile newFilename compressionLevel =
  mkBlob (PartBuffer (content originalFile)) (type originalFile).
Proof.
  intros Hext Hall. unfold createProcessedDocument.
  destruct (noLevel compressionLevel) eqn:Hno; [reflexivity|].
  destruct compressionLevel as [level|]; [|discriminate].
  rewrite Hext.
  pose proof (compressPdf_fallback (content originalFile)
                (type originalFile) level) as Hfb.
  destruct (compressPdf (content originalFile) (type originalFile) level)
    as [e | blob]; [reflexivity|].
  apply Hfb. intros pdfDoc Hload. now apply Hall.
Qed.

(** On [failingSavePlatform] the first attempt returns the five bytes of the
    original, the second throws, and the third would have written a smaller
    file. *)
Lemma compress_fallback_original_witness :
  strictEq (extensionOf (@toLowerCase failingSavePlatform) sampleFile)
    (js "pdf") = true /\
  @firstAttempt failingSavePlatform [1; 2; 3; 4; 5]
    (getCompressionOptions (js "high")) = inr [1; 2; 3; 4; 5]%N /\
  @secondAttempt failingSavePlatform [1; 2; 3; 4; 5]
    (getCompressionOptions (js "high")) = inl tt /\
  @thirdAttempt failingSavePlatform [1; 2; 3; 4; 5]
    (getCompressionOptions (js "high")) = inr [] /\
  @createProcessedDocument failingSavePlatform sampleFile (js "small.pdf")
    (Some (js "high")) =
  mkBlob (PartBuffer [37; 80; 68; 70; 45]%N) (js "application/pdf").
Proof.
  split; [reflexivity|]. split; [reflexivity|]. split; [reflexivity|].
  split; [reflexivity|].
  apply (@compress_fallback_original failingSavePlatform sampleFile
           (js "small.pdf") (Some (js "high")) eq_refl).
  intros pdfDoc level Hlevel Hload.
  injection Hlevel as <-. injection Hload as <-.
  vm_compute. split; [repeat constructor | exact I].
Defined.

(** ** The examples of the specification *)

Example parse_ranges_and_pages :
  parsePageRanges 10 (js "1-3,5,7-9") = [1; 2; 3; 5; 7; 8; 9].
Proof. reflexivity. Qed.

Example parse_out_of_bounds : parsePageRanges 10 (js "0,11") = [].
Proof. reflexivity. Qed.

Example parse_white_space : parsePageRanges 10 (js "  2 , 4-4 ") = [2; 4].
Proof. reflexivity. Qed.

Example parse_overlapping_ranges :
  parsePageRanges 10 (js "1-5,3-7,2") = [1; 2; 3; 4; 5; 6; 7].
Proof. reflexivity. Qed.

(** [parseInt] reads a prefix: trailing text, a hexadecimal prefix, a plus
    sign and a fraction are all tolerated. *)
Example parse_prefix_reading :
  parsePageRanges 30 (js "5abc,0x10, +7 ,1.9") = [1; 5; 7; 16].
Proof. reflexivity. Qed.

Example group_skips_pages_outside :
  groupPages 5 [0; 0; 1; 2; 4; 7; 9] = [[1; 2]; [4]].
Proof. reflexivity. Qed.

Example group_sorts_first : groupPages 5 [5; 3; 4; 1] = [[1]; [3; 4; 5]].
Proof. reflexivity. Qed.

(** * Further properties of the code *)

(** ** Sorting and the parser *)

Lemma sorted_perm_eq l : forall l',
  StronglySorted Z.le l -> StronglySorted Z.le l' -> Permutation l l' ->
  l = l'.
Proof.
  induction l as [|x l IH]; intros l' Hs Hs' Hp.
  - now apply Permutation_nil in Hp.
  - destruct l' as [|y l'].
    + apply Permutation_sym, Permutation_nil in Hp. discriminate.
    + inversion Hs as [|? ? Hsl Hx]; inversion Hs' as [|? ? Hsl' Hy]; subst.
      rewrite Forall_forall in Hx, Hy.
      assert (x = y) as ->.
      { assert (In y (x :: l)) as Hy1
          by (eapply Permutation_in; [symmetry; exact Hp | now left]).
        assert (In x (y :: l')) as Hx1
          by (eapply Permutation_in; [exact Hp | now left]).
        destruct Hy1 as [E | Hy1]; [congruence|].
        destruct Hx1 as [E | Hx1]; [congruence|].
        specialize (Hx y Hy1). specialize (Hy x Hx1). lia. }
      f_equal. apply IH; auto. now apply Permutation_cons_inv in Hp.
Qed.

Lemma sortAsc_perm_eq l l' : Permutation l l' -> sortAsc l = sortAsc l'.
Proof.
  intros Hp. apply sorted_perm_eq; try apply sortAsc_sorted.
  rewrite <- (sortAsc_perm l), <- (sortAsc_perm l'). exact Hp.
Qed.

Lemma strict_same_pages l l' :
  strictlyAscending l -> strictlyAscending l' -> samePages l l' -> l = l'.
Proof.
  intros Hs Hs' Hsame. apply sorted_perm_eq; try now apply strict_sorted_le.
  apply NoDup_Permutation; try now apply strict_NoDup.
  exact Hsame.
Qed.

Lemma insertAsc_filter (f : Z -> bool) x l :
  StronglySorted Z.le l ->
  filter f (insertAsc x l) =
  if f x then insertAsc x (filter f l) else filter f l.
Proof.
  induction 1 as [|y l Hs IH Hall]; simpl.
  - destruct (f x); reflexivity.
  - destruct (Z.leb_spec x y) as [Hle | Hlt]; simpl.
    + destruct (f x) eqn:Ex; [|reflexivity].
      destruct (f y); simpl.
      * destruct (Z.leb_spec x y); [reflexivity | lia].
      * symmetry. apply insertAsc_head.
        rewrite Forall_forall in *. intros z Hz.
        apply filter_In in Hz as [Hz _]. specialize (Hall z Hz). lia.
    + rewrite IH. destruct (f x), (f y); simpl; try reflexivity.
      destruct (Z.leb_spec x y); [lia | reflexivity].
Qed.

Lemma sortAsc_filter (f : Z -> bool) l :
  sortAsc (filter f l) = filter f (sortAsc l).
Proof.
  induction l as [|x l IH]; simpl; [reflexivity|].
  rewrite insertAsc_filter by apply sortAsc_sorted.
  destruct (f x); simpl; now rewrite IH.
Qed.

Lemma split_append sep a b :
  split sep (a ++ sep :: b) = split sep a ++ split sep b.
Proof.
  induction a as [|c a IH]; simpl.
  - now rewrite N.eqb_refl.
  - destruct (N.eqb c sep); [now rewrite IH|].
    rewrite IH. destruct (split sep a) as [|f fs] eqn:E; [|reflexivity].
    now destruct (split_nonempty sep a).
Qed.

Lemma tokens_append s1 s2 :
  tokens (s1 ++ comma :: s2) = tokens s1 ++ tokens s2.
Proof. unfold tokens. now rewrite split_append, map_app. Qed.

Lemma parsePageRanges_append_In totalPages s1 s2 p :
  In p (parsePageRanges totalPages (s1 ++ comma :: s2)) <->
  In p (parsePageRanges totalPages s1) \/ In p (parsePageRanges totalPages s2).
Proof.
  rewrite !parsePageRanges_In, tokens_append. split.
  - intros [token [Hin Hacc]]. apply in_app_or in Hin as [Hin | Hin];
      [left | right]; now exists token.
  - intros [[token [Hin Hacc]] | [token [Hin Hacc]]]; exists token;
      (split; [apply in_or_app; auto | assumption]).
Qed.

Lemma Accepted_more_pages totalPages totalPages' token p :
  totalPages <= totalPages' ->
  Accepted totalPages token p -> Accepted totalPages' token p.
Proof.
  intros Hle [H1 H2 H3 | a b rest start end_ H1 H2 H3 H4 H5 H6 H7 H8].
  - apply AcceptSingle; auto; lia.
  - eapply AcceptRange; eauto; lia.
Qed.

(** X1.  Joining two range strings with a comma selects the union of what
    each selects, so the order in which tokens are typed does not matter
    and typing a string twice changes nothing. *)
Theorem parse_comma_is_union (totalPages : Z) (s1 s2 : jsstring) :
  samePages (parsePageRanges totalPages (s1 ++ comma :: s2))
            (parsePageRanges totalPages s1 ++ parsePageRanges totalPages s2) /\
  parsePageRanges totalPages (s1 ++ comma :: s2) =
  parsePageRanges totalPages (s2 ++ comma :: s1) /\
  parsePageRanges totalPages (s1 ++ comma :: s1) =
  parsePageRanges totalPages s1.
Proof.
  split; [|split].
  - intros p. rewrite parsePageRanges_append_In, in_app_iff. reflexivity.
  - apply strict_same_pages; try apply parsePageRanges_strict.
    intros p. rewrite !parsePageRanges_append_In. tauto.
  - apply strict_same_pages; try apply parsePageRanges_strict.
    intros p. rewrite parsePageRanges_append_In. tauto.
Qed.

(** X2.  A longer document never loses pages: what a range string selects
    for [totalPages] pages it also selects for any larger page count. *)
Theorem parse_grows_with_page_count (totalPages totalPages' : Z)
    (rangeStr : jsstring) :
  totalPages <= totalPages' ->
  incl (parsePageRanges totalPages rangeStr)
       (parsePageRanges totalPages' rangeStr) /\
  (length (parsePageRanges totalPages rangeStr) <=
   length (parsePageRanges totalPages' rangeStr))%nat.
Proof.
  intros Hle.
  assert (incl (parsePageRanges totalPages rangeStr)
               (parsePageRanges totalPages' rangeStr)) as Hincl.
  { intros p Hp. apply parsePageRanges_In in Hp as [token [Hin Hacc]].
    apply parsePageRanges_In. exists token. split; [assumption|].
    now apply (Accepted_more_pages totalPages). }
  split; [exact Hincl|].
  apply NoDup_incl_length; [|exact Hincl].
  apply strict_NoDup, parsePageRanges_strict.
Qed.

Lemma parse_grows_with_page_count_witness :
  3 <= 10 /\
  incl (parsePageRanges 3 (js "1-3,2-9")) (parsePageRanges 10 (js "1-3,2-9")) /\
  (length (parsePageRanges 3 (js "1-3,2-9")) <=
   length (parsePageRanges 10 (js "1-3,2-9")))%nat.
Proof.
  assert (3 <= 10) as H by lia.
  split; [exact H|].
  exact (parse_grows_with_page_count 3 10 (js "1-3,2-9") H).
Defined.

(** ** The grouping pass on any argument *)

(** X3.  Whatever list of numbers it is given, in any order and with any
    duplicates, the grouping pass returns non-empty runs of consecutive
    pages which, put end to end, are the sorted pages of the document in
    the argument; pages outside the document change nothing. *)
Theorem group_any_argument (totalPages : Z) (pageNumbers : list Z) :
  Forall isRun (groupPages totalPages pageNumbers) /\
  Forall (fun range => range <> []) (groupPages totalPages pageNumbers) /\
  concat (groupPages totalPages pageNumbers) =
    filter (inRange totalPages) (sortAsc pageNumbers) /\
  groupPages totalPages (filter (inRange totalPages) pageNumbers) =
    groupPages totalPages pageNumbers.
Proof.
  split; [apply groupPages_isRun|]. split; [|split].
  - rewrite groupPages_runs. apply runs_nonempty.
  - apply groupPages_concat.
  - rewrite !groupPages_runs, sortAsc_filter. f_equal.
    induction (sortAsc pageNumbers) as [|x l IH]; simpl; [reflexivity|].
    destruct (inRange totalPages x) eqn:E; simpl; rewrite ?E, IH; reflexivity.
Qed.

Lemma groupPages_perm totalPages l l' :
  Permutation l l' -> groupPages totalPages l = groupPages totalPages l'.
Proof.
  intros Hp. rewrite !groupPages_runs. now rewrite (sortAsc_perm_eq l l').
Qed.

(** ** Splitting text and binary files *)

Lemma firstn_plus {A} n m (l : list A) :
  firstn (n + m) l = firstn n l ++ firstn m (skipn n l).
Proof.
  revert l. induction n as [|n IH]; intros l; [reflexivity|].
  destruct l as [|x l]; simpl.
  - now rewrite firstn_nil.
  - now rewrite IH.
Qed.

Lemma skipn_plus {A} n m (l : list A) :
  skipn (n + m) l = skipn m (skipn n l).
Proof.
  revert l. induction n as [|n IH]; intros l; [reflexivity|].
  destruct l as [|x l]; simpl; [now rewrite skipn_nil | apply IH].
Qed.

(** Consecutive chunks of a fixed size, put end to end. *)
Lemma chunks_concat {A} (cs : nat) (l : list A) n : forall k,
  concat (map (fun i => firstn cs (skipn (i * cs) l)) (seq k n)) =
  firstn (n * cs) (skipn (k * cs) l).
Proof.
  induction n as [|n IH]; intros k; [reflexivity|].
  cbn [seq map concat]. rewrite IH.
  replace (S n * cs)%nat with (cs + n * cs)%nat by lia.
  rewrite firstn_plus. f_equal. f_equal.
  replace (S k * cs)%nat with (k * cs + cs)%nat by lia.
  apply skipn_plus.
Qed.

Lemma chunks_cover {A} (cs n : nat) (l : list A) :
  (length l <= n * cs)%nat ->
  concat (map (fun i => firstn cs (skipn (i * cs) l)) (seq 0 n)) = l.
Proof.
  intros H. rewrite chunks_concat. simpl. now apply firstn_all2.
Qed.

Lemma ceilDiv_covers (a b : nat) : (0 < b)%nat -> (a <= b * ceilDiv a b)%nat.
Proof.
  intros Hb. unfold ceilDiv.
  pose proof (Nat.div_mod_eq (a + b - 1) b).
  pose proof (Nat.mod_upper_bound (a + b - 1) b). lia.
Qed.

Lemma firstn_min_length {A} n (l : list A) :
  firstn (Nat.min n (length l)) l = firstn n l.
Proof.
  destruct (Nat.le_ge_cases n (length l)) as [H | H].
  - now rewrite Nat.min_l.
  - rewrite Nat.min_r by assumption.
    now rewrite firstn_all, firstn_all2.
Qed.

(** The line group of one output of the text branch. *)
Lemma slice_text_chunk {A} (lines : list A) (start linesPerPage : nat) :
  slice lines start (Nat.min (start + linesPerPage) (length lines)) =
  firstn linesPerPage (skipn start lines).
Proof.
  unfold slice. rewrite <- (firstn_min_length linesPerPage).
  rewrite length_skipn. f_equal. lia.
Qed.

(** The byte chunk of one output of the binary branch. *)
Lemma slice_binary_chunk {A} (l : list A) (start chunkSize : nat) :
  (chunkSize = 0%nat -> l = []) ->
  slice l start
    (if (start <? Nat.min (start + chunkSize) (length l))%nat
     then Nat.min (start + chunkSize) (length l)
     else length l) =
  firstn chunkSize (skipn start l).
Proof.
  intros Hcs.
  destruct (Nat.ltb_spec start (Nat.min (start + chunkSize) (length l)))
    as [Hlt | Hge].
  - apply slice_text_chunk.
  - unfold slice.
    destruct (Nat.eq_dec chunkSize 0) as [E | E].
    + rewrite (Hcs E). now rewrite skipn_nil, !firstn_nil.
    + assert (length l <= start)%nat by lia.
      rewrite skipn_all2 by assumption. now rewrite !firstn_nil.
Qed.

Lemma mapFrom_Forall2 {A B C} (f : A -> nat -> B) (g : nat -> C)
    (R : B -> C -> Prop) (xs : list A) :
  (forall x i, R (f x i) (g i)) ->
  forall k, Forall2 R (mapFrom f k xs) (map g (seq k (length xs))).
Proof.
  intros H. induction xs as [|x r IH]; intros k; simpl; constructor; auto.
Qed.

Lemma mapFrom_names {A B C} (f : A -> nat -> B) (h : B -> C) (g : A -> C)
    (xs : list A) :
  (forall x i, h (f x i) = g x) ->
  forall k, map h (mapFrom f k xs) = map g xs.
Proof.
  intros H. induction xs as [|x r IH]; intros k; simpl; [reflexivity|].
  now rewrite H, IH.
Qed.

Lemma mapFrom_length {A B} (f : A -> nat -> B) (xs : list A) : forall k,
  length (mapFrom f k xs) = length xs.
Proof. induction xs; intros k; simpl; auto. Qed.

Lemma join_cons sep x xs :
  xs <> [] -> join sep (x :: xs) = x ++ sep ++ join sep xs.
Proof. destruct xs; [congruence | reflexivity]. Qed.

(** Splitting on a separator and joining with it gives the string back. *)
Lemma join_split sep s : join [sep] (split sep s) = s.
Proof.
  induction s as [|c r IH]; [reflexivity|].
  pose proof (split_nonempty sep r) as Hne.
  cbn [split]. destruct (N.eqb_spec c sep) as [-> | Hne'].
  - rewrite join_cons by assumption. now rewrite IH.
  - destruct (split sep r) as [|f fs]; [congruence|].
    destruct fs as [|g gs].
    + simpl in *. now rewrite IH.
    + rewrite join_cons by discriminate.
      rewrite join_cons in IH by discriminate.
      simpl. now rewrite <- IH.
Qed.

(** The chunks of the binary branch tile the content. *)
Lemma splitBinary_chunks (originalFile : File) (ext : jsstring)
    (pageNumbers : list Z) (namingPattern : jsstring) :
  pageNumbers <> [] ->
  exists chunks,
    Forall2 (fun doc chunk =>
               splitContent doc = mkBlob (PartBuffer chunk) (type originalFile))
            (splitBinary originalFile ext pageNumbers namingPattern) chunks /\
    concat chunks = content originalFile.
Proof.
  intros Hne.
  set (n := length pageNumbers).
  set (cs := ceilDiv (length (content originalFile)) n).
  assert (0 < n)%nat as Hn
    by (subst n; destruct pageNumbers; simpl; [congruence | lia]).
  pose proof (ceilDiv_covers (length (content originalFile)) n Hn) as Hcover.
  fold cs in Hcover.
  exists (map (fun i => firstn cs (skipn (i * cs) (content originalFile)))
              (seq 0 n)).
  split.
  - apply mapFrom_Forall2. intros p i. cbn [splitContent]. f_equal. f_equal.
    apply slice_binary_chunk. fold n. fold cs. intros E.
    rewrite E in Hcover. apply length_zero_iff_nil. lia.
  - apply chunks_cover. lia.
Qed.

Section SplitBranches.

Context {platform : Platform}.

(** X4.  A binary file that is neither text nor PDF is cut without loss:
    [createSplitDocuments] returns one chunk per page number, named after
    that page number with the extension of the file, and the chunks put
    end to end are the bytes of the file. *)
Theorem split_binary_lossless (originalFile : File) (pageNumbers : list Z)
    (namingPattern : jsstring) :
  startsWith (js "text/") (type originalFile) = false ->
  strictEq (orElse (extensionOf toLowerCase originalFile) (js "pdf"))
           (js "txt") = false ->
  strictEq (orElse (extensionOf toLowerCase originalFile) (js "pdf"))
           (js "pdf") = false ->
  pageNumbers <> [] ->
  exists docs chunks,
    createSplitDocuments originalFile pageNumbers namingPattern = inr docs /\
    length docs = length pageNumbers /\
    map splitName docs =
      map (fun p => replace placeholder (toString p) namingPattern ++ js "."
                    ++ orElse (extensionOf toLowerCase originalFile) (js "pdf"))
          pageNumbers /\
    Forall2 (fun doc chunk =>
               splitContent doc = mkBlob (PartBuffer chunk) (type originalFile))
            docs chunks /\
    concat chunks = content originalFile.
Proof.
  intros Htext Htxt Hpdf Hne.
  set (ext := orElse (extensionOf toLowerCase originalFile) (js "pdf")) in *.
  destruct (splitBinary_chunks originalFile ext pageNumbers namingPattern Hne)
    as [chunks [Hall Hcat]].
  exists (splitBinary originalFile ext pageNumbers namingPattern), chunks.
  split; [|split; [|split; [|split]]].
  - unfold createSplitDocuments. fold ext. rewrite Htext, Htxt, Hpdf.
    reflexivity.
  - apply mapFrom_length.
  - apply mapFrom_names. reflexivity.
  - exact Hall.
  - exact Hcat.
Qed.

(** X5.  A text file (by its MIME type or its [txt] extension) is cut
    between lines without loss:
    [createSplitDocuments] returns one output per page number, each holding
    a group of whole lines joined by line feeds, and the groups put end to
    end are the lines of the text, which joined by line feeds are the text
    itself. *)
Theorem split_text_partitions_lines (originalFile : File)
    (pageNumbers : list Z) (namingPattern : jsstring) :
  startsWith (js "text/") (type originalFile)
  || strictEq (orElse (extensionOf toLowerCase originalFile) (js "pdf"))
              (js "txt") = true ->
  pageNumbers <> [] ->
  exists docs groups,
    createSplitDocuments originalFile pageNumbers namingPattern = inr docs /\
    length docs = length pageNumbers /\
    Forall2 (fun doc group =>
               splitContent doc =
               mkBlob (PartString (join [lineFeed] group)) (type originalFile))
            docs groups /\
    concat groups = split lineFeed (decodeText (content originalFile)) /\
    join [lineFeed] (concat groups) = decodeText (content originalFile).
Proof.
  intros Htext Hne.
  set (ext := orElse (extensionOf toLowerCase originalFile) (js "pdf")) in *.
  set (lines := split lineFeed (decodeText (content originalFile))).
  set (n := length pageNumbers).
  set (lpp := ceilDiv (length lines) n).
  assert (0 < n)%nat as Hn by (subst n; destruct pageNumbers; simpl; [congruence | lia]).
  pose proof (ceilDiv_covers (length lines) n Hn) as Hcover. fold lpp in Hcover.
  assert (concat (map (fun i => firstn lpp (skipn (i * lpp) lines)) (seq 0 n))
          = lines) as Hcat by (apply chunks_cover; lia).
  exists (splitText originalFile ext pageNumbers namingPattern),
         (map (fun i => firstn lpp (skipn (i * lpp) lines)) (seq 0 n)).
  split; [|split; [|split; [|split]]].
  - unfold createSplitDocuments. fold ext. now rewrite Htext.
  - apply mapFrom_length.
  - apply mapFrom_Forall2. intros p i. cbn [splitContent]. f_equal. f_equal.
    f_equal. apply slice_text_chunk.
  - exact Hcat.
  - rewrite Hcat. apply join_split.
Qed.

(** X6.  On the PDF branch the order of the page numbers does not matter:
    two arguments that are permutations of each other give the same ranges
    and the same result. *)
Theorem split_pdf_ignores_order (originalFile : File)
    (pageNumbers pageNumbers' : list Z) (namingPattern : jsstring) :
  Permutation pageNumbers pageNumbers' ->
  takesPdfBranch originalFile ->
  (forall totalPages,
      groupPages totalPages pageNumbers = groupPages totalPages pageNumbers') /\
  createSplitDocuments originalFile pageNumbers namingPattern =
  createSplitDocuments originalFile pageNumbers' namingPattern.
Proof.
  intros Hp Hpdf. split; [intros; now apply groupPages_perm|].
  rewrite !createSplitDocuments_pdf by assumption.
  unfold splitPdf. destruct (load (content originalFile) None); simpl;
    [reflexivity|].
  now rewrite (groupPages_perm _ _ _ Hp).
Qed.

End SplitBranches.

Lemma split_binary_lossless_witness :
  startsWith (js "text/") (type sampleBinary) = false /\
  [1; 2; 3] <> [] /\
  exists docs chunks,
    @createSplitDocuments toyPlatform sampleBinary [1; 2; 3] (js "part{n}")
      = inr docs /\
    map splitName docs =
      [js "part1.pptx"; js "part2.pptx"; js "part3.pptx"] /\
    Forall2 (fun doc chunk =>
               splitContent doc = mkBlob (PartBuffer chunk) (type sampleBinary))
            docs chunks /\
    concat chunks = content sampleBinary.
Proof.
  assert ([1; 2; 3] <> @nil Z) as Hne by discriminate.
  split; [reflexivity|]. split; [exact Hne|].
  destruct (@split_binary_lossless toyPlatform sampleBinary [1; 2; 3]
              (js "part{n}") eq_refl eq_refl eq_refl Hne)
    as [docs [chunks [Hdocs [_ [Hnames [Hall Hcat]]]]]].
  exists docs, chunks. repeat split; assumption.
Defined.

Lemma split_text_partitions_lines_witness :
  startsWith (js "text/") (type sampleText)
  || strictEq (orElse (extensionOf (@toLowerCase toyPlatform) sampleText)
                      (js "pdf")) (js "txt") = true /\
  [4; 9] <> [] /\
  exists docs groups,
    @createSplitDocuments toyPlatform sampleText [4; 9] (js "page{n}")
      = inr docs /\
    length docs = 2%nat /\
    join [lineFeed] (concat groups) = content sampleText.
Proof.
  assert ([4; 9] <> @nil Z) as Hne by discriminate.
  split; [reflexivity|]. split; [exact Hne|].
  destruct (@split_text_partitions_lines toyPlatform sampleText [4; 9]
              (js "page{n}") eq_refl Hne)
    as [docs [groups [Hdocs [Hlen [_ [_ Hjoin]]]]]].
  exists docs, groups. repeat split; assumption.
Defined.

Lemma split_pdf_ignores_order_witness :
  Permutation [3; 1; 2; 5] [5; 3; 2; 1] /\
  @takesPdfBranch toyPlatform sampleFile /\
  @createSplitDocuments toyPlatform sampleFile [3; 1; 2; 5] (js "p{n}") =
  @createSplitDocuments toyPlatform sampleFile [5; 3; 2; 1] (js "p{n}").
Proof.
  assert (Permutation [3; 1; 2; 5] [5; 3; 2; 1]) as Hp.
  { apply (perm_trans (l' := [3; 1; 5; 2])).
    - do 2 apply perm_skip. apply perm_swap.
    - apply (perm_trans (l' := [3; 5; 1; 2])).
      + apply perm_skip. apply perm_swap.
      + apply (perm_trans (l' := [5; 3; 1; 2])).
        * apply perm_swap.
        * do 2 apply perm_skip. apply perm_swap. }
  assert (@takesPdfBranch toyPlatform sampleFile) as Hpdf
    by (split; reflexivity).
  split; [exact Hp|]. split; [exact Hpdf|].
  exact (proj2 (@split_pdf_ignores_order toyPlatform sampleFile
                  [3; 1; 2; 5] [5; 3; 2; 1] (js "p{n}") Hp Hpdf)).
Defined.

(** ** Compression never grows a file *)

Lemma strictEq_eq a : forall b, strictEq a b = true <-> a = b.
Proof.
  induction a as [|x a IH]; intros [|y b]; simpl; split; try congruence;
    try discriminate.
  - intros H. apply andb_true_iff in H as [Hxy Hab].
    apply N.eqb_eq in Hxy. apply IH in Hab. congruence.
  - intros [= -> ->]. rewrite N.eqb_refl. now apply IH.
Qed.

Section Compression.

Context {platform : Platform}.

(** One step through the retries: decide a size test, or the outcome of
    an attempt. *)
Ltac retry_step :=
  match goal with
  | |- context [(?a <=? ?b)%nat] => destruct (Nat.leb_spec a b)
  | |- context [match ?r with inl _ => _ | inr _ => _ end] => destruct r
  end; simpl; try discriminate.

Lemma compressPdf_result arrayBuffer fileType level blob :
  compressPdf arrayBuffer fileType level = inr blob ->
  blob = mkBlob (PartBuffer arrayBuffer) fileType \/
  exists compressed,
    blob = mkBlob (PartBuffer compressed) (js "application/pdf") /\
    (length compressed < length arrayBuffer)%nat.
Proof.
  unfold compressPdf, retryIfNotSmaller.
  destruct (load arrayBuffer _) as [e | pdfDoc]; simpl; [discriminate|].
  set (o := getCompressionOptions (orElse level (js "medium"))).
  destruct (firstAttempt pdfDoc o) as [e | b1]; simpl; [discriminate|].
  repeat retry_step;
    intros [= <-]; (now left) || (right; eexists; split; [reflexivity | lia]).
Qed.

(** X7.  For a file that is not a JPG or PNG image, [createProcessedDocument]
    never returns more bytes than it was given: the result is the original
    blob, or, for a PDF with a compression level, a PDF blob strictly
    smaller than the original. *)
Theorem processed_never_larger (originalFile : File) (newFilename : jsstring)
    (compressionLevel : option jsstring) :
  existsb (strictEq (extensionOf toLowerCase originalFile))
          [js "jpg"; js "jpeg"; js "png"] = false ->
  createProcessedDocument originalFile newFilename compressionLevel =
    mkBlob (PartBuffer (content originalFile)) (type originalFile) \/
  exists compressed,
    createProcessedDocument originalFile newFilename compressionLevel =
      mkBlob (PartBuffer compressed) (js "application/pdf") /\
    (length compressed < length (content originalFile))%nat /\
    extensionOf toLowerCase originalFile = js "pdf" /\
    noLevel compressionLevel = false.
Proof.
  intros Himg. unfold createProcessedDocument.
  destruct (noLevel compressionLevel) eqn:Hno; [now left|].
  rewrite Himg.
  destruct (strictEq (extensionOf toLowerCase originalFile) (js "pdf")) eqn:Hpdf;
    [|now left].
  destruct (compressPdf _ _ _) as [e | blob] eqn:Hc; [now left|].
  apply compressPdf_result in Hc as [-> | [compressed [-> Hlt]]]; [now left|].
  right. exists compressed. repeat split; auto. now apply strictEq_eq.
Qed.

End Compression.

Lemma processed_never_larger_witness :
  existsb (strictEq (extensionOf (@toLowerCase toyPlatform) sampleFile))
          [js "jpg"; js "jpeg"; js "png"] = false /\
  (@createProcessedDocument toyPlatform sampleFile (js "out.pdf")
     (Some (js "medium")) =
     mkBlob (PartBuffer (content sampleFile)) (type sampleFile) \/
   exists compressed,
     @createProcessedDocument toyPlatform sampleFile (js "out.pdf")
       (Some (js "medium")) =
       mkBlob (PartBuffer compressed) (js "application/pdf") /\
     (length compressed < length (content sampleFile))%nat /\
     extensionOf (@toLowerCase toyPlatform) sampleFile = js "pdf" /\
     noLevel (Some (js "medium")) = false).
Proof.
  split; [reflexivity|].
  exact (@processed_never_larger toyPlatform sampleFile (js "out.pdf")
           (Some (js "medium")) eq_refl).
Defined.


(** ** Merging *)

Lemma totalSize_concat (buffers : list bytes) : forall acc,
  fold_left (fun sum buffer => (sum + length buffer)%nat) buffers acc =
  (acc + length (concat buffers))%nat.
Proof.
  induction buffers as [|b bs IH]; intros acc; simpl; [lia|].
  rewrite IH, length_app. lia.
Qed.

Lemma setAt_end (done pad buffer : bytes) :
  (length buffer <= length pad)%nat ->
  setAt (done ++ pad) buffer (length done) =
  (done ++ buffer) ++ skipn (length buffer) pad.
Proof.
  intros H. unfold setAt.
  rewrite firstn_app, firstn_all, Nat.sub_diag. simpl. rewrite app_nil_r.
  rewrite skipn_app, skipn_all2 by lia. simpl.
  replace (length done + length buffer - length done)%nat
    with (length buffer) by lia.
  now rewrite <- app_assoc.
Qed.

(** Writing each buffer at the running offset fills the padding in order. *)
Lemma copy_loop (buffers : list bytes) : forall done pad,
  length pad = length (concat buffers) ->
  fst (fold_left
         (fun state buffer =>
            (setAt (fst state) buffer (snd state),
             (snd state + length buffer)%nat))
         buffers (done ++ pad, length done)) =
  done ++ concat buffers.
Proof.
  induction buffers as [|b bs IH]; intros done pad Hlen; simpl in *.
  - apply length_zero_iff_nil in Hlen. now subst.
  - rewrite length_app in Hlen. cbn [fst snd].
    rewrite setAt_end by lia.
    replace (length done + length b)%nat with (length (done ++ b))
      by (rewrite length_app; lia).
    rewrite IH by (rewrite length_skipn; lia).
    now rewrite <- app_assoc.
Qed.

Lemma mergeBuffers_concat (buffers : list bytes) :
  mergeBuffers buffers = concat buffers.
Proof.
  unfold mergeBuffers. rewrite totalSize_concat. simpl.
  apply (copy_loop buffers [] (repeat 0%N (length (concat buffers)))).
  apply repeat_length.
Qed.

Section Merging.

Context `{MergePlatform}.

(** X10.  Files that are neither PDF nor text are merged byte for byte: the
    result holds the contents of the files one after the other, in the
    order given, under the type of the first file. *)
Theorem merge_binary_concatenates (firstFile : File) (rest : list File)
    (outputFilename : jsstring) :
  strictEq (extensionOf toLowerCase firstFile) (js "pdf") = false ->
  startsWith (js "text/") (type firstFile)
  || strictEq (extensionOf toLowerCase firstFile) (js "txt")
  || strictEq (extensionOf toLowerCase firstFile) (js "csv") = false ->
  createMergedDocument (firstFile :: rest) outputFilename =
  inr (mkBlob (PartBuffer (content firstFile ++ concat (map content rest)))
              (type firstFile)).
Proof.
  intros Hpdf Htext. unfold createMergedDocument.
  rewrite Hpdf, Htext, mergeBuffers_concat.
  destruct (_ || _ || _ || _); reflexivity.
Qed.

(** X11.  Cutting a binary file and merging the chunks gives the file
    back: when files that carry the names, the types and the bytes of the
    chunks of [createSplitDocuments] are handed, in order, to
    [createMergedDocument], and the first of them is not taken for a PDF or
    a text by its extension, the result is a blob of the bytes and the type
    of the original file. *)
Theorem split_then_merge_binary (originalFile : File) (pageNumbers : list Z)
    (namingPattern outputFilename : jsstring) (docs : list SplitFile)
    (firstChunk : File) (chunks : list File) :
  startsWith (js "text/") (type originalFile) = false ->
  strictEq (orElse (extensionOf toLowerCase originalFile) (js "pdf"))
           (js "txt") = false ->
  strictEq (orElse (extensionOf toLowerCase originalFile) (js "pdf"))
           (js "pdf") = false ->
  pageNumbers <> [] ->
  createSplitDocuments originalFile pageNumbers namingPattern = inr docs ->
  Forall2 savedAs docs (firstChunk :: chunks) ->
  strictEq (extensionOf toLowerCase firstChunk) (js "pdf") = false ->
  strictEq (extensionOf toLowerCase firstChunk) (js "txt")
  || strictEq (extensionOf toLowerCase firstChunk) (js "csv") = false ->
  createMergedDocument (firstChunk :: chunks) outputFilename =
  inr (mkBlob (PartBuffer (content originalFile)) (type originalFile)).
Proof.
  intros Htext Htxt Hpdf Hne Hsplit Hsaved Hpdf' Htxt'.
  set (ext := orElse (extensionOf toLowerCase originalFile) (js "pdf")) in *.
  destruct (splitBinary_chunks originalFile ext pageNumbers namingPattern Hne)
    as [pieces [Hall Hcat]].
  assert (docs = splitBinary originalFile ext pageNumbers namingPattern)
    as Hdocs.
  { unfold createSplitDocuments in Hsplit. fold ext in Hsplit.
    rewrite Htext, Htxt, Hpdf in Hsplit. simpl in Hsplit. congruence. }
  rewrite <- Hdocs in Hall.
  assert (map content (firstChunk :: chunks) = pieces /\
          Forall (fun f => type f = type originalFile) (firstChunk :: chunks))
    as [Hcontents Htypes].
  { clear Hcat Hsplit Hpdf' Htxt' Hdocs. revert pieces Hall.
    induction Hsaved as [|doc f docs fs [_ [Ht Hb]] Hrest IH];
      intros pieces Hall; inversion Hall as [|? piece ? pieces' Hd Hds]; subst.
    - split; constructor.
    - destruct (IH pieces' Hds) as [IH1 IH2].
      rewrite Hd in Hb, Ht. cbn [blobPart blobType] in Hb, Ht.
      injection Hb as Hb.
      split; [simpl; now rewrite IH1, Hb | now constructor]. }
  assert (type firstChunk = type originalFile) as Htype
    by now inversion Htypes.
  unfold createMergedDocument.
  rewrite Hpdf', Htype, Htext. cbn [orb]. rewrite Htxt', mergeBuffers_concat.
  rewrite Hcontents, Hcat.
  destruct (_ || _ || _ || _); reflexivity.
Qed.

End Merging.

Section MergingWithReads.

Context `{FileReads}.

Lemma foldM_ext_in {A B : Type} (f g : B -> A -> exn + B) (xs : list A) :
  (forall b x, In x xs -> f b x = g b x) ->
  forall b, foldM f xs b = foldM g xs b.
Proof.
  induction xs as [|x r IH]; intros Hfg b; [reflexivity|].
  cbn [foldM]. rewrite (Hfg b x (or_introl eq_refl)).
  destruct (g b x) as [e | b']; [reflexivity|].
  simpl. apply IH. intros b0 y Hy. apply Hfg. now right.
Qed.

Lemma pushBuffers_error files : forall buffers e,
  foldM (fun buffers file =>
           buffer <- arrayBuffer file ;; ret (buffers ++ [buffer]))
        files buffers = inl e ->
  exists file, In file files /\ arrayBuffer file = inl e.
Proof.
  induction files as [|file rest IH]; intros buffers e; [discriminate|].
  cbn [foldM]. destruct (arrayBuffer file) as [e' | buffer] eqn:E; simpl.
  - intros [= <-]. exists file. split; [now left | assumption].
  - intros Hrest. destruct (IH _ _ Hrest) as [f [Hin Hf]].
    exists f. split; [now right | assumption].
Qed.

Lemma pushBuffers_read files : forall buffers,
  (forall file, In file files -> arrayBuffer file = inr (content file)) ->
  foldM (fun buffers file =>
           buffer <- arrayBuffer file ;; ret (buffers ++ [buffer]))
        files buffers = inr (buffers ++ map content files).
Proof.
  induction files as [|file rest IH]; intros buffers Hread.
  - simpl. now rewrite app_nil_r.
  - cbn [foldM]. rewrite (Hread file (or_introl eq_refl)). simpl.
    rewrite IH by (intros f Hf; apply Hread; now right).
    now rewrite <- app_assoc.
Qed.

Lemma mergePdf_read files :
  (forall file, In file files -> arrayBuffer file = inr (content file)) ->
  WithReads.mergePdf files = mergePdf files.
Proof.
  intros Hread. unfold WithReads.mergePdf, mergePdf.
  destruct create as [e | mergedPdf]; [reflexivity|]. simpl.
  match goal with
  | |- context [foldM ?f files mergedPdf] =>
      match goal with
      | |- _ = match match foldM ?g files mergedPdf with _ => _ end
               with _ => _ end =>
          rewrite (foldM_ext_in f g files)
      end
  end.
  - reflexivity.
  - intros b x Hx. now rewrite (Hread x Hx).
Qed.

(** When every read resolves to the content of its file, the function with
    reads is the function on the contents. *)
Lemma createMergedDocument_read files outputFilename :
  (forall file, In file files -> arrayBuffer file = inr (content file)) ->
  WithReads.createMergedDocument files outputFilename =
  createMergedDocument files outputFilename.
Proof.
  intros Hread.
  unfold WithReads.createMergedDocument, createMergedDocument.
  destruct files as [|firstFile rest]; [reflexivity|].
  destruct (strictEq (extensionOf toLowerCase firstFile) (js "pdf")).
  - now apply mergePdf_read.
  - destruct (_ || _ || _); [reflexivity|].
    unfold WithReads.readBuffers.
    rewrite (pushBuffers_read (firstFile :: rest) [] Hread).
    now destruct (_ || _ || _ || _).
Qed.

(** X9.  With reads that may reject, [createMergedDocument] fails in three
    ways only: on an empty list, with "No files to merge"; on the PDF
    branch, where whatever is thrown inside the [try], a rejected read
    included, comes out as "Failed to merge PDF files: " followed by the
    text of the cause; and on a binary merge, where the read of one of the
    files rejects outside any [try] and the rejection is passed on as it is.
    A text merge never fails, even when a text cannot be read. *)
Theorem merge_failures (files : list File) (outputFilename : jsstring)
    (e : exn) :
  WithReads.createMergedDocument files outputFilename = inl e ->
  (files = [] /\ e = newError (js "No files to merge")) \/
  (exists firstFile rest cause,
      files = firstFile :: rest /\
      extensionOf toLowerCase firstFile = js "pdf" /\
      e = newError (js "Failed to merge PDF files: " ++ errorText cause)) \/
  (exists firstFile rest file,
      files = firstFile :: rest /\
      mergedAsBinary firstFile /\
      In file files /\
      arrayBuffer file = inl e).
Proof.
  unfold WithReads.createMergedDocument. destruct files as [|firstFile rest].
  - simpl. intros [= <-]. now left.
  - destruct (strictEq (extensionOf toLowerCase firstFile) (js "pdf")) eqn:E.
    + unfold WithReads.mergePdf.
      match goal with
      | |- catch ?body _ = _ -> _ => destruct body as [cause | blob]
      end; simpl; intros [= <-].
      right. left. exists firstFile, rest, cause. repeat split.
      now apply strictEq_eq.
    + destruct (_ || _ || _) eqn:Etext; [discriminate|].
      assert (WithReads.readBuffers (firstFile :: rest) = inl e ->
              exists file, In file (firstFile :: rest) /\
                           arrayBuffer file = inl e) as Hread
        by apply pushBuffers_error.
      intros He. right. right.
      assert (WithReads.readBuffers (firstFile :: rest) = inl e) as Hfail.
      { destruct (_ || _ || _ || _);
          destruct (WithReads.readBuffers (firstFile :: rest));
          simpl in He; congruence. }
      destruct (Hread Hfail) as [file [Hin Hfile]].
      exists firstFile, rest, file. repeat split; assumption.
Qed.

End MergingWithReads.

(** Two files of a binary merge on the toy platform: the read of the second
    one rejects, and the rejection is what the merge fails with. *)
Lemma merge_failures_witness :
  @WithReads.createMergedDocument toyPlatform toyMergePlatform toyFileReads
    [sampleBinary; emptyPdf] (js "merged.pptx") = inl tt /\
  @arrayBuffer toyPlatform toyMergePlatform toyFileReads emptyPdf = inl tt /\
  ([sampleBinary; emptyPdf] = @nil File /\
   tt = @newError toyPlatform (js "No files to merge") \/
   (exists firstFile rest cause,
      [sampleBinary; emptyPdf] = firstFile :: rest /\
      extensionOf (@toLowerCase toyPlatform) firstFile = js "pdf" /\
      tt = @newError toyPlatform
             (js "Failed to merge PDF files: "
              ++ @errorText toyPlatform cause)) \/
   (exists firstFile rest file,
      [sampleBinary; emptyPdf] = firstFile :: rest /\
      @mergedAsBinary toyPlatform firstFile /\
      In file [sampleBinary; emptyPdf] /\
      @arrayBuffer toyPlatform toyMergePlatform toyFileReads file = inl tt)).
Proof.
  split; [reflexivity|]. split; [reflexivity|].
  exact (@merge_failures toyPlatform toyMergePlatform toyFileReads
           [sampleBinary; emptyPdf] (js "merged.pptx") tt eq_refl).
Defined.

Lemma merge_binary_concatenates_witness :
  strictEq (extensionOf (@toLowerCase toyPlatform) sampleBinary) (js "pdf")
    = false /\
  @createMergedDocument toyPlatform toyMergePlatform
    [sampleBinary; sampleFile] (js "merged") =
  inr (mkBlob (PartBuffer (content sampleBinary
                           ++ concat (map content [sampleFile])))
              (type sampleBinary)).
Proof.
  split; [reflexivity|].
  exact (@merge_binary_concatenates toyPlatform toyMergePlatform sampleBinary
           [sampleFile] (js "merged") eq_refl eq_refl).
Defined.

Lemma split_then_merge_binary_witness :
  [1; 2; 3] <> [] /\
  @createMergedDocument toyPlatform toyMergePlatform
    [mkFile (js "part1.pptx") (type sampleBinary) [80; 75; 3]%N;
     mkFile (js "part2.pptx") (type sampleBinary) [4; 20; 0]%N;
     mkFile (js "part3.pptx") (type sampleBinary) [6]%N]
    (js "slides.pptx") =
  inr (mkBlob (PartBuffer (content sampleBinary)) (type sampleBinary)).
Proof.
  assert ([1; 2; 3] <> @nil Z) as Hne by discriminate.
  split; [exact Hne|].
  apply (@split_then_merge_binary toyPlatform toyMergePlatform sampleBinary
           [1; 2; 3] (js "part{n}") (js "slides.pptx")
           (splitBinary sampleBinary (js "pptx") [1; 2; 3] (js "part{n}")));
    try reflexivity; try exact Hne.
  repeat constructor.
Defined.

(** ** The split page *)

Lemma replace_absent search replacement : forall s,
  containsString search s = false -> replace search replacement s = s.
Proof.
  induction s as [|c r IH]; intros H; cbn [containsString replace] in *;
    apply orb_false_iff in H as [Hs Hr]; rewrite Hs; [reflexivity|].
  now rewrite IH.
Qed.

Lemma startsWith_placeholder s :
  startsWith placeholder s = true ->
  exists r, s = 123%N :: 110%N :: 125%N :: r.
Proof.
  intros H. apply startsWith_split in H. now exists (skipn 3 s).
Qed.

(** The placeholder of [splitPattern] is the first one when the base name
    holds none. *)
Lemma replace_part_placeholder replacement : forall base,
  containsString placeholder base = false ->
  replace placeholder replacement (base ++ js "_part{n}") =
  base ++ js "_part" ++ replacement.
Proof.
  induction base as [|c b IH]; intros H.
  - simpl. now rewrite app_nil_r.
  - cbn [containsString] in H. apply orb_false_iff in H as [Hs Hb].
    assert (startsWith placeholder ((c :: b) ++ js "_part{n}") = false) as E.
    { destruct (startsWith placeholder ((c :: b) ++ js "_part{n}")) eqn:E;
        [|reflexivity].
      apply startsWith_placeholder in E as [r Hr].
      destruct b as [|x [|y b']]; cbn in Hr; try discriminate.
      injection Hr as -> -> -> _. discriminate. }
    change ((c :: b) ++ js "_part{n}") with (c :: (b ++ js "_part{n}")) in *.
    cbn [replace]. rewrite E. cbn [app]. now rewrite IH.
Qed.

Section SplitPageFacts.

Context {platform : Platform}.

Lemma handleFileSelect_selected files file totalPages :
  handleFileSelect files = FileSelected file totalPages ->
  exists rest pdfDoc,
    files = file :: rest /\
    extensionOf toLowerCase file = js "pdf" /\
    size file <= maxFileSize /\
    load (content file) None = inr pdfDoc /\
    totalPages = getPageCount pdfDoc.
Proof.
  unfold handleFileSelect. destruct files as [|f rest]; [discriminate|].
  destruct (existsb _ acceptedTypes) eqn:Hext; simpl; [|discriminate].
  destruct (Z.ltb_spec maxFileSize (size f)); [discriminate|].
  destruct (load (content f) None) as [e | pdfDoc] eqn:Hload; [discriminate|].
  intros [= <- <-]. exists rest, pdfDoc. repeat split; auto.
  simpl in Hext. rewrite orb_false_r in Hext.
  now apply strictEq_eq.
Qed.

(** X12.  A file becomes the file of the split page only if its extension
    is [pdf] in any letter case, it is at most 50 MB, and pdf-lib loads it;
    the page count kept with it is the page count of the document.
    [createSplitDocuments] then takes it down the PDF branch exactly when
    its MIME type does not start with [text/]. *)
Theorem selected_file_is_pdf (files : list File) (file : File)
    (totalPages : Z) :
  handleFileSelect files = FileSelected file totalPages ->
  hd_error files = Some file /\
  extensionOf toLowerCase file = js "pdf" /\
  size file <= 52428800 /\
  (exists pdfDoc,
      load (content file) None = inr pdfDoc /\
      totalPages = getPageCount pdfDoc) /\
  (takesPdfBranch file <-> startsWith (js "text/") (type file) = false).
Proof.
  intros H. apply handleFileSelect_selected in H
    as [rest [pdfDoc [-> [Hext [Hsize [Hload Hpages]]]]]].
  split; [reflexivity|]. split; [assumption|]. split; [exact Hsize|].
  split; [now exists pdfDoc|].
  unfold takesPdfBranch. rewrite Hext. simpl. tauto.
Qed.


(** X14.  From the range box to the documents: for a file selected on the
    split page whose type is not text, when at least one page is accepted
    and pdf-lib extracts every range, [handleSplit] completes with one
    document per run of consecutive accepted pages, in ascending order; the
    runs put end to end are exactly the accepted pages, so every accepted
    page goes to one document and no other page goes anywhere. *)
Theorem split_page_end_to_end (files : list File) (file : File)
    (totalPages : Z) (rangeText : jsstring) (pdfDoc : PDFDocument) :
  handleFileSelect files = FileSelected file totalPages ->
  load (content file) None = inr pdfDoc ->
  startsWith (js "text/") (type file) = false ->
  parsePageRanges totalPages rangeText <> [] ->
  (forall range,
      In range (runs (parsePageRanges totalPages rangeText)) ->
      exists doc, splitRange pdfDoc (splitPattern file) range = inr doc) ->
  exists docs,
    handleSplit (Some file) rangeText totalPages = SplitComplete docs /\
    Forall2 (fun range doc =>
               splitRange pdfDoc (splitPattern file) range = inr doc)
            (runs (parsePageRanges totalPages rangeText)) docs /\
    concat (runs (parsePageRanges totalPages rangeText)) =
      parsePageRanges totalPages rangeText /\
    Forall isRun (runs (parsePageRanges totalPages rangeText)) /\
    ascendingRanges
      (map bounds (runs (parsePageRanges totalPages rangeText))) /\
    (1 <= length docs <= length (parsePageRanges totalPages rangeText))%nat.
Proof.
  intros Hsel Hload Htext Hne Hok.
  apply handleFileSelect_selected in Hsel
    as [rest [pdfDoc' [-> [Hext [Hsize [Hload' Hpages]]]]]].
  rewrite Hload in Hload'. injection Hload' as <-.
  set (pages := parsePageRanges totalPages rangeText) in *.
  assert (groupPages (getPageCount pdfDoc) pages = runs pages) as Hgroup.
  { rewrite groupPages_runs, <- Hpages.
    rewrite (sortAsc_sorted_id pages)
      by apply strict_sorted_le, parsePageRanges_strict.
    now rewrite filter_inRange_all by apply parsePageRanges_bounds. }
  assert (takesPdfBranch file) as Hpdf.
  { split; [assumption|]. now rewrite Hext. }
  destruct (splitPdf_ok (content file) pages (splitPattern file) pdfDoc Hload)
    as [docs [Hdocs Hall]]; [now rewrite Hgroup|].
  rewrite Hgroup in Hall.
  exists docs. split; [|split; [|split; [|split; [|split]]]].
  - unfold handleSplit. fold pages.
    destruct pages as [|p l] eqn:E; [congruence|]. cbn [length Nat.eqb].
    rewrite <- E in *. rewrite createSplitDocuments_pdf by assumption.
    now rewrite Hdocs.
  - exact Hall.
  - apply runs_concat.
  - apply runs_isRun.
  - apply runs_ascending, parsePageRanges_strict.
  - rewrite <- (Forall2_length Hall).
    pose proof (runs_nonempty pages) as Hnonempty.
    pose proof (runs_concat pages) as Hcat.
    split.
    + destruct (runs pages) as [|r rs]; simpl in *; [congruence | lia].
    + rewrite <- Hcat at 2. clear Hcat Hall Hgroup Hok.
      induction Hnonempty as [|r rs Hr Hrs IH]; simpl; [lia|].
      rewrite length_app. destruct r; [congruence | simpl; lia].
Qed.

(** X15.  The names of the documents: when the name of the file without
    its first [.pdf] holds no [{n}], the document of the range
    [(start, end)] is called that base name, [_part], the page number or
    [start-end], and [.pdf]. *)
Theorem split_page_names (file : File) (start end_ : Z) :
  start <= end_ ->
  containsString placeholder (replace (js ".pdf") [] (name file)) = false ->
  rangeFileName (splitPattern file) (span start end_) ++ js ".pdf" =
  replace (js ".pdf") [] (name file) ++ js "_part" ++ substituted start end_
  ++ js ".pdf".
Proof.
  intros Hle Hbase.
  change (rangeFileName (splitPattern file) (span start end_))
    with (rangeName (start, end_) (splitPattern file)).
  rewrite rangeName_replace by assumption. unfold splitPattern.
  rewrite replace_part_placeholder by assumption.
  now rewrite <- !app_assoc.
Qed.

End SplitPageFacts.

Lemma selected_file_is_pdf_witness :
  @handleFileSelect toyPlatform [sampleFile; sampleBinary] =
    FileSelected sampleFile 5 /\
  extensionOf (@toLowerCase toyPlatform) sampleFile = js "pdf" /\
  size sampleFile <= 52428800.
Proof.
  split; [reflexivity|].
  destruct (@selected_file_is_pdf toyPlatform [sampleFile; sampleBinary]
              sampleFile 5 eq_refl) as [_ [Hext [Hsize _]]].
  split; [exact Hext | exact Hsize].
Defined.

Lemma split_page_end_to_end_witness :
  @handleFileSelect toyPlatform [sampleFile] = FileSelected sampleFile 5 /\
  parsePageRanges 5 (js "4-5, 1, 9, 2") <> [] /\
  exists docs,
    @handleSplit toyPlatform (Some sampleFile) (js "4-5, 1, 9, 2") 5 =
      SplitComplete docs /\
    (1 <= length docs <= length (parsePageRanges 5 (js "4-5, 1, 9, 2")))%nat.
Proof.
  assert (parsePageRanges 5 (js "4-5, 1, 9, 2") <> []) as Hne
    by (vm_compute; discriminate).
  split; [reflexivity|]. split; [exact Hne|].
  destruct (@split_page_end_to_end toyPlatform [sampleFile] sampleFile 5
              (js "4-5, 1, 9, 2") [1; 2; 3; 4; 5] eq_refl eq_refl eq_refl Hne)
    as [docs [Hdocs [_ [_ [_ [_ Hlen]]]]]].
  - intros range Hin. vm_compute in Hin.
    destruct Hin as [<- | [<- | []]]; eexists; reflexivity.
  - exists docs. split; [exact Hdocs | exact Hlen].
Defined.

Lemma split_page_names_witness :
  7 <= 9 /\
  containsString placeholder (replace (js ".pdf") [] (name sampleFile))
    = false /\
  rangeFileName (@splitPattern sampleFile) (span 7 9) ++ js ".pdf" =
  js "report_part7-9.pdf".
Proof.
  assert (7 <= 9) as Hle by lia.
  split; [exact Hle|]. split; [reflexivity|].
  rewrite (split_page_names sampleFile 7 9 Hle eq_refl). reflexivity.
Defined.

(** The first [{n}] is the one replaced, also when it is in the file
    name; only the first [.pdf] of the name is removed. *)
Example placeholder_in_file_name :
  rangeFileName (splitPattern (mkFile (js "a{n}.pdf") (js "application/pdf") []))
                [1; 2; 3] = js "a1-3_part{n}".
Proof. reflexivity. Qed.

Example first_pdf_removed :
  splitPattern (mkFile (js "my.pdf.old.pdf") (js "application/pdf") []) =
  js "my.old.pdf_part{n}".
Proof. reflexivity. Qed.

(** ** The name of a compressed download *)

Lemma stripExtension_stem ext : forall stem,
  ext <> [] ->
  forallb (fun x => negb (N.eqb x slash || N.eqb x dot)) ext = true ->
  stripExtension (stem ++ dot :: ext) = stem.
Proof.
  intros stem Hne Hext. induction stem as [|c stem IH].
  - simpl. rewrite Hext. destruct ext; [congruence | reflexivity].
  - cbn [app stripExtension]. rewrite forallb_app. cbn [forallb].
    rewrite N.eqb_refl, orb_true_r. cbn [negb andb].
    rewrite !andb_false_r. now rewrite IH.
Qed.

Lemma stripExtension_no_dot s : includes dot s = false -> stripExtension s = s.
Proof.
  induction s as [|c r IH]; intros H; [reflexivity|].
  apply includes_cons_false in H as [Hc Hr].
  cbn [stripExtension]. destruct (N.eqb_spec c dot); [contradiction|].
  simpl. now rewrite IH.
Qed.

Lemma forallb_no_dot ext :
  forallb (fun x => negb (N.eqb x slash || N.eqb x dot)) ext = true ->
  includes dot ext = false.
Proof.
  induction ext as [|x r IH]; [reflexivity|].
  cbn [forallb]. intros H. apply andb_true_iff in H as [Hx Hr].
  unfold includes. cbn [existsb]. fold (includes dot r). rewrite (IH Hr).
  apply negb_true_iff, orb_false_iff in Hx as [_ Hx].
  rewrite N.eqb_sym. now rewrite Hx.
Qed.

Lemma pop_last_field stem ext :
  includes dot ext = false -> pop (split dot (stem ++ dot :: ext)) = ext.
Proof.
  intros H. unfold pop. rewrite split_append, (split_without dot ext H).
  apply last_last.
Qed.

(** X16.  The name under which a compressed file is downloaded: for a name
    [stem.ext] whose extension is not empty and holds no dot and no slash,
    it is [stem_compressed.ext]; for a name without any dot it is the name,
    [_compressed.], and the whole name again. *)
Theorem compressed_download_name (stem ext fileName : jsstring) :
  (ext <> [] ->
   forallb (fun x => negb (N.eqb x slash || N.eqb x dot)) ext = true ->
   compressedFileName (stem ++ dot :: ext) =
   stem ++ js "_compressed." ++ ext) /\
  (includes dot fileName = false ->
   compressedFileName fileName = fileName ++ js "_compressed." ++ fileName).
Proof.
  split.
  - intros Hne Hext. unfold compressedFileName.
    rewrite stripExtension_stem by assumption.
    now rewrite pop_last_field by now apply forallb_no_dot.
  - intros H. unfold compressedFileName.
    rewrite stripExtension_no_dot by assumption.
    now rewrite (split_without dot fileName H).
Qed.

Lemma compressed_download_name_witness :
  js "pdf" <> [] /\
  compressedFileName (js "annual.report" ++ dot :: js "pdf") =
    js "annual.report_compressed.pdf" /\
  compressedFileName (js "README") = js "README_compressed.README".
Proof.
  assert (js "pdf" <> []) as Hne by discriminate.
  split; [exact Hne|]. split.
  - exact (proj1 (compressed_download_name (js "annual.report") (js "pdf") [])
             Hne eq_refl).
  - exact (proj2 (compressed_download_name [] [] (js "README")) eq_refl).
Defined.

Example compressed_name_trailing_dot :
  compressedFileName (js "draft.") = js "draft._compressed.".
Proof. reflexivity. Qed.

(** ** Decimal strings: [toString] and [parseInt] *)

Lemma js_string_of_uint d :
  js (NilEmpty.string_of_uint d) = map digitChar (uintDigits d).
Proof.
  induction d; simpl; try reflexivity;
    unfold js in *; simpl; now rewrite IHd.
Qed.

Lemma uintDigits_range d : Forall (fun x => 0 <= x <= 9) (uintDigits d).
Proof. induction d; simpl; constructor; auto; lia. Qed.

Lemma uintDigits_nonempty p : uintDigits (Pos.to_uint p) <> [].
Proof.
  pose proof (DecimalPos.Unsigned.to_uint_nonnil p) as H.
  destruct (Pos.to_uint p); simpl; congruence.
Qed.

Lemma toString_pos p :
  toString (Z.pos p) = map digitChar (uintDigits (Pos.to_uint p)).
Proof.
  unfold toString. cbn [Z.to_int NilZero.string_of_int].
  pose proof (DecimalPos.Unsigned.to_uint_nonnil p) as H.
  rewrite <- js_string_of_uint.
  destruct (Pos.to_uint p); try reflexivity. congruence.
Qed.

Lemma toString_neg p :
  toString (Z.neg p) = hyphen :: map digitChar (uintDigits (Pos.to_uint p)).
Proof.
  unfold toString. cbn [Z.to_int NilZero.string_of_int].
  pose proof (DecimalPos.Unsigned.to_uint_nonnil p) as H.
  rewrite <- js_string_of_uint.
  destruct (Pos.to_uint p); try reflexivity. congruence.
Qed.

Lemma digit_cases x :
  0 <= x <= 9 ->
  x = 0 \/ x = 1 \/ x = 2 \/ x = 3 \/ x = 4 \/ x = 5 \/ x = 6 \/ x = 7
  \/ x = 8 \/ x = 9.
Proof. lia. Qed.

(** Case analysis on a decimal digit. *)
Ltac each_digit H :=
  apply digit_cases in H;
  destruct H as [H|[H|[H|[H|[H|[H|[H|[H|[H|H]]]]]]]]]; subst.

Lemma takeDigits_digits ds :
  Forall (fun x => 0 <= x <= 9) ds -> takeDigits 10 (map digitChar ds) = ds.
Proof.
  induction 1 as [|x ds Hx Hds IH]; [reflexivity|].
  cbn [map takeDigits]. each_digit Hx; cbn; now rewrite IH.
Qed.

Lemma digitsValue_acc d : forall acc,
  fold_left (fun a x => a * 10 + x) (uintDigits d) (Z.pos acc) =
  Z.pos (Pos.of_uint_acc d acc).
Proof.
  induction d; intros acc; cbn [uintDigits fold_left Pos.of_uint_acc];
    try reflexivity; rewrite <- IHd; f_equal; lia.
Qed.

Lemma digitsValue_uint d :
  digitsValue 10 (uintDigits d) = Z.of_N (Pos.of_uint d).
Proof.
  unfold digitsValue.
  induction d; cbn [uintDigits fold_left Pos.of_uint]; try reflexivity;
    try exact IHd;
    match goal with
    | |- fold_left _ _ ?k = _ =>
        change k with (Z.pos (Z.to_pos k)); now rewrite digitsValue_acc
    end.
Qed.

Lemma digitChar_not_space ds :
  Forall (fun x => 0 <= x <= 9) ds ->
  Forall (fun c => isWhiteSpace c = false /\ c <> hyphen /\ c <> comma)
         (map digitChar ds).
Proof.
  induction 1 as [|x ds Hx Hds IH]; [constructor|].
  cbn [map]. constructor; [|assumption].
  each_digit Hx; repeat split; discriminate.
Qed.

(** [parseInt] reads a run of decimal digits, with or without a minus
    sign, as the number they write. *)
Lemma parseInt_digits ds :
  ds <> [] -> Forall (fun x => 0 <= x <= 9) ds ->
  parseInt (map digitChar ds) = Some (digitsValue 10 ds) /\
  parseInt (hyphen :: map digitChar ds) = Some (- digitsValue 10 ds).
Proof.
  intros Hne Hds.
  enough (parseInt (map digitChar ds) = Some (1 * digitsValue 10 ds) /\
          parseInt (hyphen :: map digitChar ds)
            = Some (-1 * digitsValue 10 ds)) as [-> ->]
    by (split; f_equal; lia).
  pose proof (takeDigits_digits ds Hds) as E.
  destruct ds as [|x1 ds]; [congruence|].
  inversion Hds as [|? ? H1 Hrest]; subst.
  cbn [map] in *.
  each_digit H1;
    try (unfold parseInt; cbn [trimStart];
         cbn - [takeDigits digitsValue Z.mul]; cbn - [takeDigits] in E;
         rewrite E; split; reflexivity).
  destruct ds as [|x2 ds'].
  - split; reflexivity.
  - inversion Hrest as [|? ? H2 _]; subst. cbn [map] in *.
    each_digit H2;
      unfold parseInt; cbn [trimStart];
      cbn - [takeDigits digitsValue Z.mul]; cbn - [takeDigits] in E;
      rewrite E; split; reflexivity.
Qed.

(** Reading back the decimal string of a number gives the number. *)
Lemma parseInt_toString n : parseInt (toString n) = Some n.
Proof.
  destruct n as [|p|p]; [reflexivity| |].
  - rewrite toString_pos.
    destruct (parseInt_digits _ (uintDigits_nonempty p) (uintDigits_range _))
      as [-> _].
    rewrite digitsValue_uint, DecimalPos.Unsigned.of_to. reflexivity.
  - rewrite toString_neg.
    destruct (parseInt_digits _ (uintDigits_nonempty p) (uintDigits_range _))
      as [_ ->].
    rewrite digitsValue_uint, DecimalPos.Unsigned.of_to. reflexivity.
Qed.

Lemma toString_injective n m : toString n = toString m -> n = m.
Proof.
  intros H. pose proof (parseInt_toString n) as Hn.
  rewrite H, parseInt_toString in Hn. congruence.
Qed.

Lemma toString_plain n :
  0 <= n ->
  Forall (fun c => isWhiteSpace c = false /\ c <> hyphen /\ c <> comma)
         (toString n).
Proof.
  intros Hn. destruct n as [|p|p]; [|rewrite toString_pos|lia].
  - repeat constructor; discriminate.
  - apply digitChar_not_space, uintDigits_range.
Qed.

Lemma not_includes c s : Forall (fun x => x <> c) s -> includes c s = false.
Proof.
  induction 1 as [|x s Hx Hs IH]; [reflexivity|].
  unfold includes in *. simpl. rewrite IH.
  destruct (N.eqb_spec c x); [congruence | reflexivity].
Qed.

Lemma trimStart_id s :
  Forall (fun c => isWhiteSpace c = false) s -> trimStart s = s.
Proof. destruct 1 as [|c s Hc Hs]; [reflexivity|]. simpl. now rewrite Hc. Qed.

Lemma trim_id s : Forall (fun c => isWhiteSpace c = false) s -> trim s = s.
Proof.
  intros H. unfold trim, trimEnd. rewrite (trimStart_id s H).
  rewrite trimStart_id by now apply Forall_rev.
  apply rev_involutive.
Qed.

Lemma toString_no_hyphen n : 0 <= n -> includes hyphen (toString n) = false.
Proof.
  intros Hn. apply not_includes.
  eapply Forall_impl; [|apply (toString_plain n Hn)]. simpl. tauto.
Qed.

Lemma toString_trim n : 0 <= n -> trim (toString n) = toString n.
Proof.
  intros Hn. apply trim_id.
  eapply Forall_impl; [|apply (toString_plain n Hn)]. simpl. tauto.
Qed.

Lemma substituted_plain start end_ :
  0 <= start -> 0 <= end_ ->
  Forall (fun c => isWhiteSpace c = false /\ c <> comma)
         (substituted start end_).
Proof.
  intros Hs He. unfold substituted.
  assert (forall n, 0 <= n ->
            Forall (fun c => isWhiteSpace c = false /\ c <> comma) (toString n))
    as Hplain.
  { intros n Hn. eapply Forall_impl; [|apply (toString_plain n Hn)].
    simpl. tauto. }
  destruct (start =? end_); [now apply Hplain|].
  apply Forall_app. split; [now apply Hplain|].
  apply Forall_app. split; [|now apply Hplain].
  repeat constructor. discriminate.
Qed.

Lemma tokens_plain s :
  Forall (fun c => isWhiteSpace c = false /\ c <> comma) s -> tokens s = [s].
Proof.
  intros H. unfold tokens. rewrite split_without.
  - simpl. rewrite trim_id; [reflexivity|].
    eapply Forall_impl; [|exact H]. simpl. tauto.
  - apply not_includes. eapply Forall_impl; [|exact H]. simpl. tauto.
Qed.

Lemma pagesFrom_strict n : forall i, strictlyAscending (pagesFrom n i).
Proof.
  induction n as [|n IH]; intros i; simpl; constructor; [apply IH|].
  rewrite Forall_forall. intros p Hp. apply pagesFrom_In in Hp. lia.
Qed.

Lemma sort_set_ascending l :
  strictlyAscending l -> sortAsc (setOf l) = l.
Proof.
  intros H. apply strict_same_pages; [|assumption|].
  - apply sorted_NoDup_strict; [apply sortAsc_sorted|].
    eapply Permutation_NoDup; [apply sortAsc_perm | apply setOf_NoDup].
  - intros p. now rewrite sortAsc_In, setOf_In.
Qed.

Lemma tokenPages_label totalPages start end_ :
  1 <= start -> start <= end_ -> end_ <= totalPages ->
  tokenPages totalPages (substituted start end_) = span start end_.
Proof.
  intros H1 H2 H3. unfold substituted, tokenPages.
  destruct (Z.eqb_spec start end_) as [<- | Hne].
  - rewrite toString_no_hyphen, parseInt_toString by lia.
    replace ((0 <? start) && (start <=? totalPages)) with true
      by (symmetry; apply andb_true_iff; split;
          [apply Z.ltb_lt | apply Z.leb_le]; lia).
    unfold span. replace (start - start + 1) with 1 by lia. reflexivity.
  - replace (toString start ++ js "-" ++ toString end_)
      with (toString start ++ hyphen :: toString end_) by reflexivity.
    replace (includes hyphen (toString start ++ hyphen :: toString end_))
      with true
      by (symmetry; apply includes_In, in_or_app; right; now left).
    rewrite split_first, split_without by (apply toString_no_hyphen; lia).
    cbn [map]. rewrite !toString_trim, !parseInt_toString by lia.
    replace ((0 <? start) && (end_ <=? totalPages) && (start <=? end_))
      with true; [reflexivity|].
    symmetry. rewrite !andb_true_iff.
    repeat split; [apply Z.ltb_lt | apply Z.leb_le | apply Z.leb_le]; lia.
Qed.

(** X17.  The label a range gets in a file name reads back as that range:
    for [1 <= start <= end <= totalPages], typing the page number (when
    [start = end]) or [start-end] into the range box selects exactly the
    pages from [start] to [end], which [compact] groups into that one
    range again. *)
Theorem label_reads_back_as_range (totalPages start end_ : Z) :
  1 <= start -> start <= end_ -> end_ <= totalPages ->
  parsePageRanges totalPages (substituted start end_) = span start end_ /\
  compact totalPages (parsePageRanges totalPages (substituted start end_)) =
  [(start, end_)].
Proof.
  intros H1 H2 H3.
  assert (parsePageRanges totalPages (substituted start end_)
          = span start end_) as Hparse.
  { rewrite parsePageRanges_flat, tokens_plain
      by (apply substituted_plain; lia).
    cbn [flat_map]. rewrite app_nil_r, tokenPages_label by assumption.
    apply sort_set_ascending, pagesFrom_strict. }
  split; [exact Hparse|].
  rewrite Hparse, compact_ascending_input.
  - replace (span start end_) with (span start end_ ++ []) at 1
      by apply app_nil_r.
    rewrite runs_span_front by assumption. cbn [runs glue map].
    now rewrite bounds_span.
  - apply pagesFrom_strict.
  - rewrite Forall_forall. intros p Hp. apply span_In in Hp. lia.
Qed.

Lemma label_reads_back_as_range_witness :
  1 <= 7 /\ 7 <= 9 /\ 9 <= 12 /\
  parsePageRanges 12 (substituted 7 9) = span 7 9 /\
  compact 12 (parsePageRanges 12 (substituted 7 9)) = [(7, 9)].
Proof.
  assert (1 <= 7) as H1 by lia.
  assert (7 <= 9) as H2 by lia.
  assert (9 <= 12) as H3 by lia.
  split; [exact H1|]. split; [exact H2|]. split; [exact H3|].
  exact (label_reads_back_as_range 12 7 9 H1 H2 H3).
Defined.

(** ** Names tell ranges apart *)

Lemma replace_first_uniform search : forall s,
  containsString search s = true ->
  exists pre post,
    forall replacement,
      replace search replacement s = pre ++ replacement ++ post.
Proof.
  induction s as [|c r IH]; intros H.
  - cbn [containsString] in H. rewrite orb_false_r in H.
    exists [], (skipn (length search) []). intros replacement.
    cbn [replace]. now rewrite H.
  - destruct (startsWith search (c :: r)) eqn:E.
    + exists [], (skipn (length search) (c :: r)). intros replacement.
      cbn [replace]. now rewrite E.
    + cbn [containsString] in H. rewrite E in H. simpl in H.
      destruct (IH H) as [pre [post Hr]].
      exists (c :: pre), post. intros replacement.
      cbn [replace]. rewrite E. simpl. now rewrite Hr.
Qed.

Lemma substituted_injective a b c d :
  0 <= a <= b -> 0 <= c <= d ->
  substituted a b = substituted c d -> a = c /\ b = d.
Proof.
  intros Hab Hcd. unfold substituted.
  assert (forall x y z, 0 <= x -> 0 <= y -> 0 <= z ->
            toString x <> toString y ++ js "-" ++ toString z) as Hmix.
  { intros x y z Hx Hy Hz E.
    pose proof (toString_no_hyphen x Hx) as Hno. rewrite E in Hno.
    assert (includes hyphen (toString y ++ js "-" ++ toString z) = true)
      by (apply includes_In, in_or_app; right; now left).
    congruence. }
  destruct (Z.eqb_spec a b) as [<- | Hne], (Z.eqb_spec c d) as [<- | Hne'].
  - intros E. apply toString_injective in E. now subst.
  - intros E. now apply Hmix in E; try lia.
  - intros E. symmetry in E. now apply Hmix in E; try lia.
  - intros E.
    assert (split hyphen (toString a ++ hyphen :: toString b) =
            split hyphen (toString c ++ hyphen :: toString d)) as Hsplit
      by (f_equal; exact E).
    rewrite !split_first, !split_without in Hsplit
      by (apply toString_no_hyphen; lia).
    injection Hsplit as Ea Eb.
    apply toString_injective in Ea, Eb. now subst.
Qed.

(** Equal names, equal ranges. *)
Lemma names_tell_ranges_apart (namingPattern : jsstring) (a b c d : Z) :
  containsString placeholder namingPattern = true ->
  0 <= a <= b -> 0 <= c <= d ->
  rangeName (a, b) namingPattern = rangeName (c, d) namingPattern ->
  (a, b) = (c, d).
Proof.
  intros Hin Hab Hcd. rewrite !rangeName_replace by lia.
  destruct (replace_first_uniform placeholder namingPattern Hin)
    as [pre [post Hr]].
  rewrite !Hr. intros E.
  apply app_inv_head, app_inv_tail in E.
  apply substituted_injective in E as [-> ->]; auto.
Qed.

Lemma ascending_later r : forall rs,
  ascendingRanges (r :: rs) ->
  Forall (fun x => fst x <= snd x) (r :: rs) ->
  Forall (fun r' => snd r < fst r') rs.
Proof.
  intros rs. revert r. induction rs as [|r2 rs IH]; intros r Hasc Hwf;
    [constructor|].
  destruct Hasc as [Hlt Hasc].
  inversion Hwf as [|? ? _ Hwf']; subst.
  inversion Hwf' as [|? ? Hr2 _]; subst.
  constructor; [assumption|].
  eapply Forall_impl; [|apply (IH r2 Hasc Hwf')]. simpl. intros; lia.
Qed.

Lemma ascending_NoDup rs :
  ascendingRanges rs -> Forall (fun x => fst x <= snd x) rs -> NoDup rs.
Proof.
  induction rs as [|r rs IH]; intros Hasc Hwf; constructor.
  - intros Hin. pose proof (ascending_later r rs Hasc Hwf) as Hlater.
    rewrite Forall_forall in Hlater. specialize (Hlater r Hin).
    inversion Hwf; subst. lia.
  - inversion Hwf; subst. apply IH; [|assumption].
    destruct rs as [|r2 rs']; [exact I | apply Hasc].
Qed.

Lemma compact_wellformed totalPages pageNumbers :
  Forall (fun r => 1 <= fst r <= snd r) (compact totalPages pageNumbers).
Proof.
  rewrite compact_runs.
  set (t := filter (inRange totalPages) (sortAsc pageNumbers)).
  rewrite Forall_map, Forall_forall. intros run Hrun.
  pose proof (runs_isRun t) as Hruns. rewrite Forall_forall in Hruns.
  pose proof (isRun_bounds run (Hruns run Hrun)) as Hle.
  split; [|exact Hle]. cbn [bounds fst].
  destruct (Hruns run Hrun) as [n [i ->]].
  assert (In i t) as Hi.
  { rewrite <- (runs_concat t). apply in_concat.
    exists (pagesFrom (S n) i). split; [assumption | now left]. }
  apply filter_In in Hi as [_ Hi]. apply inRange_spec in Hi.
  unfold rangeStart. simpl. lia.
Qed.

(** X18.  No document of a split overwrites another: for a duplicate-free
    selection and a pattern that contains the placeholder, the file names
    of the ranges of the compacted selection are pairwise different; two
    ranges of valid pages with the same name are the same range. *)
Theorem split_names_distinct (totalPages : Z) (pageNumbers : list Z)
    (namingPattern : jsstring) :
  NoDup pageNumbers ->
  containsString placeholder namingPattern = true ->
  NoDup (map (fun r => rangeName r namingPattern ++ js ".pdf")
             (compact totalPages pageNumbers)) /\
  (forall a b c d,
      0 <= a <= b -> 0 <= c <= d ->
      rangeName (a, b) namingPattern = rangeName (c, d) namingPattern ->
      (a, b) = (c, d)).
Proof.
  intros Hnd Hin. split.
  - pose proof (compact_wellformed totalPages pageNumbers) as Hwf.
    apply NoDup_map_NoDup_ForallPairs.
    + intros [a b] [c d] Hab Hcd E. apply app_inv_tail in E.
      rewrite Forall_forall in Hwf.
      pose proof (Hwf _ Hab) as H1. pose proof (Hwf _ Hcd) as H2.
      cbn [fst snd] in H1, H2.
      apply (names_tell_ranges_apart namingPattern); auto; lia.
    + apply ascending_NoDup; [now apply compact_ascending|].
      eapply Forall_impl; [|exact Hwf]. simpl. intros; lia.
  - intros a b c d. now apply names_tell_ranges_apart.
Qed.

Lemma split_names_distinct_witness :
  NoDup [3; 1; 2; 5] /\
  containsString placeholder (js "part{n}") = true /\
  NoDup (map (fun r => rangeName r (js "part{n}") ++ js ".pdf")
             (compact 5 [3; 1; 2; 5])).
Proof.
  assert (NoDup [3; 1; 2; 5]) as Hnd.
  { repeat constructor; simpl; intuition discriminate. }
  split; [exact Hnd|]. split; [reflexivity|].
  exact (proj1 (split_names_distinct 5 [3; 1; 2; 5] (js "part{n}")
                  Hnd eq_refl)).
Defined.

(** ** All or nothing *)

Section AllOrNothing.

Context `{MergePlatform}.



Lemma foldM_fails {A B : Type} (step : B -> A -> exn + B) (f : A)
    (xs : list A) :
  In f xs -> (forall b, exists e, step b f = inl e) ->
  forall b, exists cause, foldM step xs b = inl cause.
Proof.
  intros Hin Hf. induction xs as [|x r IH]; [destruct Hin|].
  intros b. cbn [foldM].
  destruct (step b x) as [e | b'] eqn:Hx; simpl; [now exists e|].
  destruct Hin as [-> | Hin]; [|now apply IH].
  destruct (Hf b) as [e He]. congruence.
Qed.

Lemma mergePdf_needs_every_file (files : list File) (f : File) (e : exn) :
  In f files ->
  load (content f) None = inl e ->
  exists cause,
    mergePdf files =
    inl (newError (js "Failed to merge PDF files: " ++ errorText cause)).
Proof.
  intros Hin Hload. unfold mergePdf.
  destruct create as [e0 | mergedPdf]; simpl; [now exists e0|].
  match goal with
  | |- context [foldM ?step files mergedPdf] =>
      destruct (foldM_fails step f files Hin) with (b := mergedPdf)
        as [cause Hc]
  end.
  - intros b. exists e. now rewrite Hload.
  - rewrite Hc. now exists cause.
Qed.

(** X20.  A PDF merge needs every file: if pdf-lib cannot load one of the
    files, whatever its position, [createMergedDocument] fails with a
    message that starts with "Failed to merge PDF files: " and returns no
    partial document. *)
Theorem merge_pdf_needs_every_file (firstFile : File) (rest : list File)
    (outputFilename : jsstring) (f : File) (e : exn) :
  extensionOf toLowerCase firstFile = js "pdf" ->
  In f (firstFile :: rest) ->
  load (content f) None = inl e ->
  exists cause,
    createMergedDocument (firstFile :: rest) outputFilename =
    inl (newError (js "Failed to merge PDF files: " ++ errorText cause)).
Proof.
  intros Hext Hin Hload.
  destruct (mergePdf_needs_every_file (firstFile :: rest) f e Hin Hload)
    as [cause Hc].
  exists cause. unfold createMergedDocument. rewrite Hext.
  replace (strictEq (js "pdf") (js "pdf")) with true by reflexivity.
  exact Hc.
Qed.

End AllOrNothing.


(** ** The size of a selection *)

(** X21.  A selection never holds more pages than the document: the list
    returned by [parsePageRanges] has at most [totalPages] elements, and
    none when the document has no page. *)
Theorem parse_at_most_all_pages (totalPages : Z) (rangeStr : jsstring) :
  (length (parsePageRanges totalPages rangeStr) <= Z.to_nat totalPages)%nat /\
  (totalPages <= 0 -> parsePageRanges totalPages rangeStr = []).
Proof.
  assert (length (parsePageRanges totalPages rangeStr)
          <= Z.to_nat totalPages)%nat as Hlen.
  { replace (Z.to_nat totalPages)
      with (length (pagesFrom (Z.to_nat totalPages) 1))
      by apply pagesFrom_length.
    apply NoDup_incl_length.
    - apply strict_NoDup, parsePageRanges_strict.
    - intros p Hp. apply pagesFrom_In.
      pose proof (parsePageRanges_bounds totalPages rangeStr) as Hb.
      rewrite Forall_forall in Hb. specialize (Hb p Hp). lia. }
  split; [exact Hlen|].
  intros H0. replace (Z.to_nat totalPages) with 0%nat in Hlen by lia.
  destruct (parsePageRanges totalPages rangeStr); [reflexivity|].
  simpl in Hlen. lia.
Qed.

Lemma merge_pdf_needs_every_file_witness :
  extensionOf (@toLowerCase strictPlatform) sampleFile = js "pdf" /\
  In emptyPdf [sampleFile; emptyPdf] /\
  @load strictPlatform (content emptyPdf) None = inl tt /\
  exists cause,
    @createMergedDocument strictPlatform strictMergePlatform
      [sampleFile; emptyPdf] (js "merged.pdf") =
    inl (@newError strictPlatform
           (js "Failed to merge PDF files: "
            ++ @errorText strictPlatform cause)).
Proof.
  assert (In emptyPdf [sampleFile; emptyPdf]) as Hin by (right; now left).
  split; [reflexivity|]. split; [exact Hin|]. split; [reflexivity|].
  exact (@merge_pdf_needs_every_file strictPlatform strictMergePlatform
           sampleFile [emptyPdf] (js "merged.pdf") emptyPdf tt
           eq_refl Hin eq_refl).
Defined.

(** * The parser against the grammar of the specification *)

(** ** The tokens of a range string *)

Lemma join_flat sep first rest :
  join [sep] (first :: rest) = first ++ flat_map (cons sep) rest.
Proof.
  revert first. induction rest as [|f rest IH]; intros first.
  - simpl. now rewrite app_nil_r.
  - rewrite join_cons by discriminate. rewrite IH. reflexivity.
Qed.

(** The fields are the stretches between the separators. *)
Lemma split_fields sep s :
  exists first rest,
    split sep s = first :: rest /\
    s = first ++ flat_map (cons sep) rest /\
    Forall (fun field => ~ In sep field) (first :: rest).
Proof.
  destruct (split sep s) as [|first rest] eqn:E.
  - exfalso. now apply (split_nonempty sep s).
  - exists first, rest. split; [reflexivity|]. split.
    + rewrite <- join_flat, <- E. symmetry. apply join_split.
    + rewrite Forall_forall. intros field Hfield Hin.
      rewrite <- E in Hfield.
      destruct (split_chars sep s field sep Hfield Hin). congruence.
Qed.

Lemma trimStart_lead s :
  exists lead,
    s = lead ++ trimStart s /\ blank lead /\ noSpaceAtStart (trimStart s).
Proof.
  induction s as [|c r [lead [Hr [Hlead Hstart]]]].
  - exists []. repeat split. constructor.
  - simpl. destruct (isWhiteSpace c) eqn:Hc.
    + exists (c :: lead). split; [simpl; now f_equal|].
      split; [now constructor | assumption].
    + exists []. repeat split; [constructor | exact Hc].
Qed.

Lemma trim_trimmedTo s : trimmedTo s (trim s).
Proof.
  unfold trimmedTo, trim, trimEnd.
  destruct (trimStart_lead s) as [lead [Hs [Hlead Hstart]]].
  destruct (trimStart_lead (rev (trimStart s))) as [back [Hr [Hback Hend]]].
  set (g := trimStart s) in *.
  set (t := trimStart (rev g)) in *.
  assert (g = rev t ++ rev back) as Hg.
  { rewrite <- rev_app_distr, <- Hr. symmetry. apply rev_involutive. }
  exists lead, (rev back). split; [now rewrite <- Hg|].
  split; [assumption|]. split; [now apply Forall_rev|].
  split; [|now rewrite rev_involutive].
  rewrite Hg in Hstart. destruct (rev t); [exact I | exact Hstart].
Qed.

Lemma tokens_trimmed fields : Forall2 trimmedTo fields (map trim fields).
Proof.
  induction fields as [|f r IH]; constructor; [apply trim_trimmedTo | exact IH].
Qed.

(** ** Integer literals under parseInt *)

Lemma decimalDigit_char c :
  isDecimalDigit c = true ->
  0 <= Z.of_N c - 48 <= 9 /\ digitChar (Z.of_N c - 48) = c.
Proof.
  unfold isDecimalDigit. intros H. apply andb_true_iff in H as [H1 H2].
  apply N.leb_le in H1, H2. split; [lia|].
  unfold digitChar. replace (48 + (Z.of_N c - 48)) with (Z.of_N c) by lia.
  apply N2Z.id.
Qed.

Lemma fold_left_digits (s : jsstring) : forall acc,
  fold_left (fun acc c => acc * 10 + (Z.of_N c - 48)) s acc =
  fold_left (fun acc d => acc * 10 + d) (map (fun c => Z.of_N c - 48) s) acc.
Proof. induction s as [|c r IH]; intros acc; [reflexivity | apply IH]. Qed.

(** An integer literal is the row of digit characters of its value. *)
Lemma integerLiteral_digits s value :
  integerLiteral s = Some value ->
  exists ds,
    s = map digitChar ds /\ ds <> [] /\
    Forall (fun x => 0 <= x <= 9) ds /\ value = digitsValue 10 ds.
Proof.
  unfold integerLiteral. intros H.
  assert (s <> [] /\ forallb isDecimalDigit s = true /\
          value = fold_left (fun acc c => acc * 10 + (Z.of_N c - 48)) s 0)
    as [Hne [Hdigits ->]].
  { destruct s as [|c r]; [discriminate|].
    destruct (forallb isDecimalDigit (c :: r)); [|discriminate].
    injection H as <-. repeat split. discriminate. }
  rewrite forallb_forall in Hdigits.
  exists (map (fun c => Z.of_N c - 48) s). repeat split.
  - rewrite map_map. rewrite <- (map_id s) at 1. apply map_ext_in.
    intros c Hc. symmetry. now apply decimalDigit_char, Hdigits.
  - destruct s; [congruence | discriminate].
  - rewrite Forall_forall. intros x Hx. apply in_map_iff in Hx as [c [<- Hc]].
    now apply decimalDigit_char, Hdigits.
  - apply fold_left_digits.
Qed.

Lemma integerLiteral_plain s value :
  integerLiteral s = Some value ->
  Forall (fun c => isWhiteSpace c = false /\ c <> hyphen /\ c <> comma) s.
Proof.
  intros H. apply integerLiteral_digits in H as [ds [-> [_ [Hds _]]]].
  now apply digitChar_not_space.
Qed.

Lemma parseInt_integerLiteral s value :
  integerLiteral s = Some value -> parseInt s = Some value.
Proof.
  intros H. apply integerLiteral_digits in H as [ds [-> [Hne [Hds ->]]]].
  now apply parseInt_digits.
Qed.

Lemma integerLiteral_no_hyphen s value :
  integerLiteral s = Some value -> includes hyphen s = false.
Proof.
  intros H. apply not_includes.
  eapply Forall_impl; [|apply (integerLiteral_plain s value H)]. simpl. tauto.
Qed.

Lemma integerLiteral_trim s value :
  integerLiteral s = Some value -> trim s = s.
Proof.
  intros H. apply trim_id.
  eapply Forall_impl; [|apply (integerLiteral_plain s value H)]. simpl. tauto.
Qed.

Lemma cutAt_parts sep s a b :
  cutAt sep s = Some (a, b) -> s = a ++ sep :: b /\ includes sep a = false.
Proof.
  revert a. induction s as [|c r IH]; intros a; [discriminate|].
  simpl. destruct (N.eqb_spec c sep) as [-> | Hne].
  - intros [= <- <-]. now split.
  - destruct (cutAt sep r) as [[a' b']|]; [|discriminate].
    intros [= <- <-]. destruct (IH a' eq_refl) as [-> Hinc].
    split; [reflexivity|]. unfold includes in *. simpl. rewrite Hinc.
    destruct (N.eqb_spec sep c); [congruence | reflexivity].
Qed.

Lemma positive_test v : (0 <? v) = (1 <=? v).
Proof. destruct (Z.ltb_spec 0 v), (Z.leb_spec 1 v); auto; lia. Qed.

(** On a token of the grammar the code applies the rules of the
    specification. *)
Lemma tokenPages_grammar totalPages token :
  inGrammar token = true ->
  tokenPages totalPages token = specTokenPages totalPages token.
Proof.
  unfold inGrammar, specTokenPages, tokenPages.
  destruct (integerLiteral token) as [value|] eqn:Hlit.
  - intros _. rewrite (integerLiteral_no_hyphen _ _ Hlit).
    rewrite (parseInt_integerLiteral _ _ Hlit). now rewrite positive_test.
  - destruct (cutAt hyphen token) as [[a b]|] eqn:Hcut; [|discriminate].
    destruct (integerLiteral a) as [start|] eqn:Ha; [|discriminate].
    destruct (integerLiteral b) as [end_|] eqn:Hb; [|discriminate].
    intros _. apply cutAt_parts in Hcut as [-> Hinc].
    replace (includes hyphen (a ++ hyphen :: b)) with true
      by (symmetry; apply includes_In, in_or_app; right; now left).
    rewrite split_first by assumption.
    rewrite split_without by (now apply integerLiteral_no_hyphen in Hb).
    cbn [map].
    rewrite (integerLiteral_trim _ _ Ha), (integerLiteral_trim _ _ Hb).
    now rewrite (parseInt_integerLiteral _ _ Ha),
                (parseInt_integerLiteral _ _ Hb).
Qed.

(** Only a token of the grammar is accepted by the rules of the
    specification. *)
Lemma specTokenPages_grammar totalPages token p :
  In p (specTokenPages totalPages token) -> inGrammar token = true.
Proof.
  unfold specTokenPages, inGrammar.
  destruct (integerLiteral token); [reflexivity|].
  destruct (cutAt hyphen token) as [[a b]|]; [|intros []].
  destruct (integerLiteral a); [|intros []].
  destruct (integerLiteral b); [reflexivity | intros []].
Qed.

Lemma specParse_grammar totalPages ts :
  Forall (fun token => inGrammar token = true \/ token = []) ts ->
  flat_map (tokenPages totalPages) ts = flat_map (specTokenPages totalPages) ts.
Proof.
  induction 1 as [|token ts Htoken Hts IH]; [reflexivity|].
  simpl. rewrite IH. f_equal.
  destruct Htoken as [H | ->]; [now apply tokenPages_grammar | reflexivity].
Qed.

(** ** What parseInt reads beyond the grammar *)

Lemma takeDigits_before_junk ds junk :
  Forall (fun x => 0 <= x <= 9) ds -> startsOutsideNumber junk ->
  takeDigits 10 (map digitChar ds ++ junk) = ds.
Proof.
  intros Hds Hjunk. induction Hds as [|x ds Hx Hds IH].
  - destruct junk as [|c j]; [reflexivity|].
    destruct Hjunk as [Hc _]. simpl.
    unfold radixDigit, digitValue. unfold isDecimalDigit in Hc.
    destruct ((48 <=? Z.of_N c) && (Z.of_N c <=? 57)) eqn:E.
    + apply andb_true_iff in E as [E1 E2]. apply Z.leb_le in E1, E2.
      apply andb_false_iff in Hc as [Hc | Hc]; apply N.leb_gt in Hc; lia.
    + destruct ((97 <=? Z.of_N c) && (Z.of_N c <=? 122)) eqn:E2.
      * apply andb_true_iff in E2 as [E3 E4]. apply Z.leb_le in E3, E4.
        replace (Z.of_N c - 87 <? 10) with false; [reflexivity|].
        symmetry. apply Z.ltb_ge. lia.
      * destruct ((65 <=? Z.of_N c) && (Z.of_N c <=? 90)) eqn:E3;
          [|reflexivity].
        apply andb_true_iff in E3 as [E4 E5]. apply Z.leb_le in E4, E5.
        replace (Z.of_N c - 55 <? 10) with false; [reflexivity|].
        symmetry. apply Z.ltb_ge. lia.
  - cbn [map app takeDigits]. each_digit Hx; cbn; now rewrite IH.
Qed.

(** [parseInt] reads the digits at the start of a text and ignores what
    follows them. *)
Lemma parseInt_before_junk ds junk :
  ds <> [] -> Forall (fun x => 0 <= x <= 9) ds -> startsOutsideNumber junk ->
  parseInt (map digitChar ds ++ junk) = Some (digitsValue 10 ds).
Proof.
  intros Hne Hds Hjunk.
  enough (parseInt (map digitChar ds ++ junk) = Some (1 * digitsValue 10 ds))
    as -> by (f_equal; lia).
  pose proof (takeDigits_before_junk ds junk Hds Hjunk) as E.
  destruct ds as [|x1 ds]; [congruence|].
  inversion Hds as [|? ? H1 Hrest]; subst.
  cbn [map app] in *.
  each_digit H1;
    try (unfold parseInt; cbn [trimStart];
         cbn - [takeDigits digitsValue Z.mul]; cbn - [takeDigits] in E;
         rewrite E; reflexivity).
  destruct ds as [|x2 ds'].
  - destruct junk as [|c j]; [reflexivity|].
    destruct Hjunk as [_ [Hx HX]].
    unfold parseInt. cbn [trimStart map app].
    cbn - [takeDigits digitsValue Z.mul N.eqb].
    change (48 =? hyphen)%N with false. change (48 =? plus_sign)%N with false.
    apply N.eqb_neq in Hx, HX. cbv iota. rewrite Hx, HX.
    cbn - [takeDigits digitsValue Z.mul]. cbn - [takeDigits] in E.
    rewrite E. reflexivity.
  - inversion Hrest as [|? ? H2 _]; subst. cbn [map app] in *.
    each_digit H2;
      unfold parseInt; cbn [trimStart];
      cbn - [takeDigits digitsValue Z.mul]; cbn - [takeDigits] in E;
      rewrite E; reflexivity.
Qed.

(** ** The claim *)

(** The tokens "7abc", "4.9", "0x10" and "1-3-5" are neither an integer
    literal nor two integer literals separated by a hyphen, so the rules of
    the specification drop them; the code accepts each of them. *)
Lemma parse_accepts_outside_grammar :
  tokens (js "7abc") = [js "7abc"] /\
  inGrammar (js "7abc") = false /\
  specParse 10 (js "7abc") = [] /\
  parsePageRanges 10 (js "7abc") = [7] /\
  specParse 10 (js "4.9") = [] /\
  parsePageRanges 10 (js "4.9") = [4] /\
  specParse 20 (js "0x10") = [] /\
  parsePageRanges 20 (js "0x10") = [16] /\
  specParse 10 (js "1-3-5") = [] /\
  parsePageRanges 10 (js "1-3-5") = [1; 2; 3].
Proof. repeat split; reflexivity. Qed.

(** C1.  For every range string and every page count:

    - the tokens are the stretches of the string between its commas, each
      without the white space around it;
    - a page is in the result of [parsePageRanges] exactly when one of the
      tokens is accepted for it, the numbers being read by [parseInt]: a
      token without hyphen whose value is between 1 and [totalPages], or a
      token with a hyphen whose first two hyphen-separated fields give
      [start > 0], [end <= totalPages] and [start <= end], for the pages
      from [start] to [end]; every other token adds nothing;
    - whatever the rules of the specification accept is accepted, and on a
      token of the grammar (an integer literal, or two integer literals
      separated by a hyphen) nothing else is; when every token is of the
      grammar or empty, the result is the one the specification gives;
    - [parseInt] reads an integer literal followed by other text as the
      literal alone, which is how tokens outside the grammar are accepted;
    - the reversed range "3-1" gives the empty list. *)
Theorem parse_accepts_as_parseInt_reads (totalPages : Z)
    (rangeStr : jsstring) :
  (exists first rest,
      rangeStr = first ++ flat_map (cons comma) rest /\
      Forall (fun field => ~ In comma field) (first :: rest) /\
      Forall2 trimmedTo (first :: rest) (tokens rangeStr)) /\
  (forall p,
      In p (parsePageRanges totalPages rangeStr) <->
      exists token,
        In token (tokens rangeStr) /\ Accepted totalPages token p) /\
  (forall token p,
      In p (specTokenPages totalPages token) ->
      Accepted totalPages token p) /\
  (forall token p,
      inGrammar token = true ->
      Accepted totalPages token p ->
      In p (specTokenPages totalPages token)) /\
  (Forall (fun token => inGrammar token = true \/ token = [])
          (tokens rangeStr) ->
   parsePageRanges totalPages rangeStr = specParse totalPages rangeStr) /\
  (forall literal value junk,
      integerLiteral literal = Some value ->
      startsOutsideNumber junk ->
      parseInt (literal ++ junk) = Some value) /\
  parsePageRanges totalPages (js "3-1") = [].
Proof.
  repeat apply conj.
  - destruct (split_fields comma rangeStr) as [first [rest [E [Hs Hfields]]]].
    exists first, rest. split; [exact Hs|]. split; [exact Hfields|].
    unfold tokens. rewrite E. apply tokens_trimmed.
  - intros p. apply parsePageRanges_In.
  - intros token p Hp. apply tokenPages_Accepted.
    rewrite tokenPages_grammar; [exact Hp|].
    eapply specTokenPages_grammar. exact Hp.
  - intros token p Hgrammar Hacc.
    rewrite <- tokenPages_grammar by assumption.
    now apply tokenPages_Accepted.
  - intros Hall. rewrite parsePageRanges_flat. unfold specParse.
    now rewrite specParse_grammar.
  - intros literal value junk Hlit Hjunk.
    apply integerLiteral_digits in Hlit as [ds [-> [Hne [Hds ->]]]].
    now apply parseInt_before_junk.
  - apply parsePageRanges_none. intros token p Hin Hacc.
    destruct Hin as [<- | []].
    destruct Hacc as [Hinc _ _ | a b rest start end_ _ Hsplit Ha Hb _ _ Hle _].
    + discriminate Hinc.
    + vm_compute in Hsplit. injection Hsplit as <- <- <-.
      vm_compute in Ha, Hb. injection Ha as <-. injection Hb as <-. lia.
Qed.

(** The first example of the specification is made of tokens of the
    grammar: the code gives the result of the specification. *)
Lemma parse_accepts_as_parseInt_reads_witness :
  Forall (fun token => inGrammar token = true \/ token = [])
         (tokens (js "1-3,5,7-9")) /\
  parsePageRanges 10 (js "1-3,5,7-9") = specParse 10 (js "1-3,5,7-9") /\
  specParse 10 (js "1-3,5,7-9") = [1; 2; 3; 5; 7; 8; 9].
Proof.
  assert (Forall (fun token => inGrammar token = true \/ token = [])
                 (tokens (js "1-3,5,7-9"))) as Hall
    by (repeat constructor).
  split; [exact Hall|]. split; [|reflexivity].
  exact (proj1 (proj2 (proj2 (proj2 (proj2
           (parse_accepts_as_parseInt_reads 10 (js "1-3,5,7-9")))))) Hall).
Defined.
